(** * The conversation engine of [backend/experiment.py]

    A shallow embedding of [Experiment.run_samples] and
    [Experiment._run_conversation]: the configuration is the Python dict
    the loader hands over, the hosted model is an interface with a state
    of its own, and the two list objects the conversation loop works on
    ([conversation_history] and the request contexts built from it) live
    in a store of list objects, so that building a list with [+] and
    growing one with [.extend] are told apart. *)

From stdpp Require Import gmap strings list.

Set Warnings "-register-all".
Local Open Scope string_scope.
Local Open Scope list_scope.

(** ** Python values *)

(** The values a configuration loaded from YAML is made of. *)
Inductive PyVal : Type :=
| PNone
| PBool (b : bool)
| PInt (z : Z)
| PStr (s : string)
| PList (l : list PyVal)
| PDict (d : gmap string PyVal).

(** [self.config : Dict[str, Any]]. *)
Abbreviation Config := (gmap string PyVal).

(** Modelled from the spec: the kinds of failure of the model client
    adapter (section 6, [ModelCallError]); the client library that raises
    them is not part of the repository. *)
Inductive ErrorKind : Type :=
| RateLimited
| Timeout
| InvalidRequest
| ServerError.

(** The exceptions the two methods can end with. *)
Inductive PyError : Type :=
| KeyError (key : string)
| TypeError
| IndexError
| AttributeError
| OverflowError
| ModelCallError (kind : ErrorKind).

Inductive Result (A : Type) : Type :=
| Ok (a : A)
| Raise (e : PyError).
Arguments Ok {A} a.
Arguments Raise {A} e.

(** [d[key]] on the configuration dict. *)
Definition getitem (d : Config) (key : string) : Result PyVal :=
  match d !! key with
  | Some v => Ok v
  | None => Raise (KeyError key)
  end.

(** [v[key]] with a string key on an arbitrary value: only a dict can be
    indexed by a string, a list or a string wants an integer and the
    scalars are not subscriptable at all. *)
Definition subscript (v : PyVal) (key : string) : Result PyVal :=
  match v with
  | PDict d => getitem d key
  | _ => Raise TypeError
  end.

(** [range(v)]: the indices of the loop; a negative bound gives no index,
    and a bool counts as the integer it is. *)
Definition py_range (v : PyVal) : Result (list Z) :=
  match v with
  | PInt n => Ok (Z.of_nat <$> seq 0 (Z.to_nat n))
  | PBool b => Ok (Z.of_nat <$> seq 0 (if b then 1 else 0))
  | _ => Raise TypeError
  end.

(** [sys.maxsize] of a 64-bit build, the most [len] can give. *)
Definition maxsize : Z := 9223372036854775807.

(** [tqdm(xs, desc=..)] of line 15, with [xs] the items of a range: the
    progress bar takes [len(xs)] when it is made, and [len] of a range of
    more than [sys.maxsize] items raises [OverflowError], which the bar
    does not catch; otherwise the bar hands out the items of [xs] in
    order. What it prints is left out. *)
Definition tqdm (xs : list Z) : Result (list Z) :=
  if (Z.of_nat (length xs) <=? maxsize)%Z then Ok xs else Raise OverflowError.

(** A byte [10xxxxxx], which goes on with the character before it. A string
    of the program is held as the bytes of its UTF-8 encoding. *)
Definition is_continuation (a : Ascii.ascii) : bool :=
  match a with
  | Ascii.Ascii _ _ _ _ _ _ b6 b7 => b7 && negb b6
  end.

(** The characters of a string, from its end: the bytes not yet given to
    a character, and the characters found. *)
Fixpoint code_points_from (s : string) : string * list string :=
  match s with
  | EmptyString => (EmptyString, [])
  | String a s' =>
      let '(pending, found) := code_points_from s' in
      if is_continuation a then (String a pending, found)
      else (EmptyString, String a pending :: found)
  end.

(** The characters of a string, each with all the bytes of its encoding. *)
Definition code_points (s : string) : list string :=
  match code_points_from s with
  | (EmptyString, found) => found
  | (pending, found) => pending :: found
  end.

(** [iter(v)] of a [for] loop: the items of a list, the characters of a
    string, the keys of a dict. A dict of the model does not keep the order
    in which its keys were put in, so the keys come in the order of the
    map and not, as in the program, in that of insertion: only the set of
    the items of a dict is meant, and what is proved of a loop over a dict
    holds for every order of its keys. *)
Definition py_iter (v : PyVal) : Result (list PyVal) :=
  match v with
  | PList l => Ok l
  | PStr s => Ok (PStr <$> code_points s)
  | PDict d => Ok (PStr <$> (map_to_list d).*1)
  | _ => Raise TypeError
  end.

(** ** Messages *)

(** [{"role": .., "content": ..}], an entry of the context sent to the model. *)
Record HistoryEntry : Type := { role : string; content : string }.

(** [{"role": .., "speaker": .., "content": ..}], an entry of the transcript. *)
Record TranscriptEntry : Type :=
  { t_role : string; speaker : PyVal; t_content : string }.

Definition user (text : string) : HistoryEntry :=
  {| role := "user"; content := text |}.
Definition assistant (text : string) : HistoryEntry :=
  {| role := "assistant"; content := text |}.

Global Instance HistoryEntry_eq_dec : EqDecision HistoryEntry.
Proof. solve_decision. Defined.

(** ** The model client *)

(** The keyword arguments of [client.messages.create]. *)
Module Request.
Record t : Type :=
  { model : PyVal; max_tokens : Z; system : PyVal;
    messages : list HistoryEntry }.
End Request.
Abbreviation Request := Request.t.

(** A block of [response.content]; only a text block has [.text]. *)
Inductive ContentBlock : Type :=
| TextBlock (text : string)
| OtherBlock.

Record Response : Type := { response_content : list ContentBlock }.

(** The hosted model: a call answers with a response or raises, and moves
    the world it lives in. *)
Class ModelClient (World : Type) : Type :=
  create : Request → World → Result Response * World.

(** [response.content[0].text]. *)
Definition first_text (response : Response) : Result string :=
  match response_content response with
  | [] => Raise IndexError
  | TextBlock text :: _ => Ok text
  | OtherBlock :: _ => Raise AttributeError
  end.

(** ** Program state *)

Abbreviation loc := nat.

(** One call as the outside sees it: what was asked and what came back. *)
Definition Call : Type := Request * Result Response.

Record State (World : Type) : Type :=
  { world : World;
    calls : list Call;
    heap : list (list HistoryEntry) }.
Arguments world {World} _.
Arguments calls {World} _.
Arguments heap {World} _.

(** Statements: they read and write the state and may raise. *)
Definition M (World A : Type) : Type := State World → Result A * State World.

(** ** The local variables of [_run_conversation] *)

Definition seed_greeting : string :=
  "Hello! I'm looking forward to our conversation.".

Record Locals : Type :=
  { messages : list TranscriptEntry;
    conversation_history : loc;
    current_message : string }.

Section Orchestration.
Context {World : Type} `{!ModelClient World}.

Global Instance M_ret : MRet (M World) := λ A a st, (Ok a, st).

Global Instance M_bind : MBind (M World) := λ A B f m st,
  match m st with
  | (Ok a, st') => f a st'
  | (Raise e, st') => (Raise e, st')
  end.

Definition lift {A : Type} (r : Result A) : M World A := λ st, (r, st).

(** A list display [[..]]: a new list object. *)
Definition new_list (xs : list HistoryEntry) : M World loc := λ st,
  (Ok (length (heap st)),
   {| world := world st; calls := calls st; heap := heap st ++ [xs] |}).

(** [l + xs]: a new list object, [l] itself is left as it is. *)
Definition list_add (l : loc) (xs : list HistoryEntry) : M World loc := λ st,
  (Ok (length (heap st)),
   {| world := world st; calls := calls st;
      heap := heap st ++ [(heap st !!! l) ++ xs] |}).

(** [l.extend(xs)]: the list object [l] grows in place. *)
Definition list_extend (l : loc) (xs : list HistoryEntry) : M World unit := λ st,
  (Ok (),
   {| world := world st; calls := calls st;
      heap := <[l := (heap st !!! l) ++ xs]> (heap st) |}).

(** The items of the list object [l], as they are sent over the wire. *)
Definition load (l : loc) : M World (list HistoryEntry) := λ st,
  (Ok (heap st !!! l), st).

(** [self.client.messages.create(..)]: the call is issued, and recorded. *)
Definition messages_create (q : Request) : M World Response := λ st,
  let '(o, w) := create q (world st) in
  (o, {| world := w; calls := calls st ++ [(q, o)]; heap := heap st |}).

(** [for x in xs: body], with the variables the body assigns. *)
Fixpoint for_each {A L : Type} (xs : list A) (body : A → L → M World L)
    (l : L) : M World L :=
  match xs with
  | [] => mret l
  | x :: xs' => l' ← body x l; for_each xs' body l'
  end.

(** ** [_run_conversation] *)

(** Line 32: [conversation_history + [{"role": "user", "content": current_message}]]. *)
Definition request_context (l : Locals) : M World (list HistoryEntry) :=
  context ← list_add (conversation_history l) [user (current_message l)];
  load context.

(** Lines 42 to 47: the history takes the prompt and the answer, and the
    answer becomes the next prompt. *)
Definition advance (text : string) (l : Locals) : M World Locals :=
  list_extend (conversation_history l)
    [user (current_message l); assistant text];;
  mret {| messages := messages l;
          conversation_history := conversation_history l;
          current_message := text |}.

(** Lines 28 to 47: the body of the inner loop. *)
Definition turn (c : Config) (agent_config : PyVal) (l : Locals)
    : M World Locals :=
  model ← lift (getitem c "model_name");
  system ← lift (subscript agent_config "system_prompt");
  context ← request_context l;
  response ← messages_create
    {| Request.model := model; Request.max_tokens := 1000;
       Request.system := system; Request.messages := context |};
  text ← lift (first_text response);
  name ← lift (subscript agent_config "name");
  advance text
    {| messages := messages l ++
         [{| t_role := "assistant"; speaker := name; t_content := text |}];
       conversation_history := conversation_history l;
       current_message := current_message l |}.

(** Lines 26 and 27: one round, the roster being looked up anew. *)
Definition round (c : Config) (l : Locals) : M World Locals :=
  agents ← lift (getitem c "agents");
  roster ← lift (py_iter agents);
  for_each roster (turn c) l.

(** Lines 22 to 47: the loop, with the local variables it ends in. *)
Definition conversation (c : Config) : M World Locals :=
  history ← new_list [];
  num_turns ← lift (getitem c "num_turns");
  rounds ← lift (py_range num_turns);
  for_each rounds (λ _, round c)
    {| messages := []; conversation_history := history;
       current_message := seed_greeting |}.

Definition _run_conversation (c : Config) : M World (list TranscriptEntry) :=
  l ← conversation c;
  mret (messages l).

(** ** [run_samples] *)

Definition run_samples (c : Config) : M World (list (list TranscriptEntry)) :=
  let num_samples := default (PInt 1) (c !! "num_samples") in
  indices ← lift (py_range num_samples);
  samples ← lift (tqdm indices);
  for_each samples
    (λ _ results, result ← _run_conversation c; mret (results ++ [result]))
    [].

End Orchestration.

(** ** Valid configurations *)

(** An agent of the roster: a name and a system prompt, both strings. *)
Record AgentProfile : Type := { name : string; system_prompt : string }.

(** The dict [v] of the roster is the agent [p]; other keys are free. *)
Definition describes (v : PyVal) (p : AgentProfile) : Prop :=
  ∃ d : Config,
    v = PDict d ∧
    d !! "name" = Some (PStr (name p)) ∧
    d !! "system_prompt" = Some (PStr (system_prompt p)).

(** A configuration as section 3 of the specification wants it: a model
    name, a roster of at least one agent, at least one round, and at least
    one sample ([num_samples] may be left out, [run_samples] then takes 1). *)
Record valid_config (c : Config) (n : nat) (roster : list AgentProfile) : Prop :=
  { valid_model_name : is_Some (c !! "model_name");
    valid_num_turns : c !! "num_turns" = Some (PInt (Z.of_nat n)) ∧ (1 ≤ n)%nat;
    valid_agents :
      ∃ agents, c !! "agents" = Some (PList agents) ∧
                Forall2 describes agents roster ∧ roster ≠ [];
    valid_num_samples :
      ∃ s : Z, default (PInt 1) (c !! "num_samples") = PInt s ∧ (1 ≤ s)%Z }.

(** ** The course of a conversation, as plain lists *)

(** The order of the turns: [n] rounds over the roster. *)
Definition schedule {A : Type} (n : nat) (roster : list A) : list A :=
  mjoin (replicate n roster).

(** The entry [messages.append] adds for one turn. *)
Definition entry (name : PyVal) (text : string) : TranscriptEntry :=
  {| t_role := "assistant"; speaker := name; t_content := text |}.

Definition entry_of (p : AgentProfile) (text : string) : TranscriptEntry :=
  entry (PStr (name p)) text.

(** What the history gains when the model answers [texts] in turn, the
    first prompt being [current_message]. *)
Fixpoint weave (current_message : string) (texts : list string)
    : list HistoryEntry :=
  match texts with
  | [] => []
  | text :: texts' =>
      user current_message :: assistant text :: weave text texts'
  end.

(** The contexts of the calls that get the answers [texts]. *)
Fixpoint contexts (history : list HistoryEntry) (current_message : string)
    (texts : list string) : list (list HistoryEntry) :=
  match texts with
  | [] => []
  | text :: texts' =>
      (history ++ [user current_message]) ::
      contexts (history ++ [user current_message; assistant text]) text texts'
  end.

(** The request of one turn. *)
Definition request_of (m : PyVal) (p : AgentProfile)
    (context : list HistoryEntry) : Request :=
  {| Request.model := m; Request.max_tokens := 1000;
     Request.system := PStr (system_prompt p); Request.messages := context |}.

(** The roles of [history] alternate, the first one being [expected]. *)
Fixpoint alternates (expected : string) (history : list HistoryEntry) : bool :=
  match history with
  | [] => true
  | e :: history' =>
      bool_decide (role e = expected) &&
      alternates (if bool_decide (expected = "user") then "assistant" else "user")
        history'
  end.

(** The calls issued since the state [st]. *)
Definition calls_since {World : Type} (st st' : State World) : list Call :=
  drop (length (calls st)) (calls st').

(** The state and the local variables at line 26, when the loop is
    entered from the state [st]: the history is a new, empty list object. *)
Definition first_state {World : Type} (st : State World) : State World :=
  {| world := world st; calls := calls st; heap := heap st ++ [[]] |}.

Definition first_locals {World : Type} (st : State World) : Locals :=
  {| messages := []; conversation_history := length (heap st);
     current_message := seed_greeting |}.

(** ** A client to run the engine with *)

Definition reply (text : string) : Result Response :=
  Ok {| response_content := [TextBlock text] |}.

(** A client that plays a script, one outcome per call, and answers with a
    dot once the script is over. *)
Global Instance scripted : ModelClient (list (Result Response)) := λ _ w,
  match w with
  | o :: w' => (o, w')
  | [] => (reply ".", [])
  end.

Definition start (script : list (Result Response))
    : State (list (Result Response)) :=
  {| world := script; calls := []; heap := [] |}.

Definition alice : AgentProfile := {| name := "A"; system_prompt := "You are A." |}.
Definition bob : AgentProfile := {| name := "B"; system_prompt := "You are B." |}.

Definition agent_dict (p : AgentProfile) : PyVal :=
  PDict {[ "name" := PStr (name p); "system_prompt" := PStr (system_prompt p) ]}.

(** Two agents, two rounds, one sample by default. *)
Definition duo_config : Config :=
  {[ "model_name" := PStr "some-model";
     "num_turns" := PInt 2;
     "agents" := PList [agent_dict alice; agent_dict bob] ]}.

(** One agent, one round, three samples. *)
Definition batch_config : Config :=
  {[ "model_name" := PStr "some-model";
     "num_turns" := PInt 1;
     "num_samples" := PInt 3;
     "agents" := PList [agent_dict alice] ]}.

(** A roster without agents. *)
Definition empty_roster_config : Config :=
  {[ "model_name" := PStr "some-model";
     "num_turns" := PInt 1;
     "num_samples" := PInt 1;
     "agents" := PList [] ]}.

(** No round at all. *)
Definition no_round_config : Config :=
  {[ "model_name" := PStr "some-model";
     "num_turns" := PInt 0;
     "num_samples" := PInt 1;
     "agents" := PList [agent_dict alice] ]}.

(** No sample at all. *)
Definition no_sample_config : Config :=
  {[ "model_name" := PStr "some-model";
     "num_turns" := PInt 1;
     "num_samples" := PInt 0;
     "agents" := PList [agent_dict alice] ]}.

(** A configuration that carries a token ceiling of its own. *)
Definition ceiling_config : Config :=
  {[ "model_name" := PStr "some-model";
     "num_turns" := PInt 1;
     "max_tokens" := PInt 500;
     "token_ceiling" := PInt 500;
     "agents" := PList [agent_dict alice] ]}.

(** Neither a roster nor a number of samples, and no round. *)
Definition rosterless_config : Config :=
  {[ "model_name" := PStr "some-model"; "num_turns" := PInt 0 ]}.

(** One round for the roster [agents], whatever it is. *)
Definition config_of (agents : PyVal) : Config :=
  {[ "model_name" := PStr "some-model";
     "num_turns" := PInt 1;
     "agents" := agents ]}.

(** An agent without a name, and one without a system prompt. *)
Definition nameless : Config := {[ "system_prompt" := PStr "You are nobody." ]}.
Definition promptless : Config := {[ "name" := PStr "C" ]}.

(** An answer with no block at all, and one that opens with a block that
    is not a text. *)
Definition no_block : Result Response := Ok {| response_content := [] |}.
Definition other_block : Result Response :=
  Ok {| response_content := [OtherBlock; TextBlock "late"] |}.

(** The transcript [msgs] and the calls [cs] of one sample that returned:
    the turns of the schedule, each with its call and the text of its
    answer. *)
Definition traced (c : Config) (n : nat) (roster : list AgentProfile)
    (msgs : list TranscriptEntry) (cs : list Call) : Prop :=
  ∃ m ts rs,
    c !! "model_name" = Some m ∧
    Forall2 (λ r t, first_text r = Ok t) rs ts ∧
    length ts = length (schedule n roster) ∧
    msgs = zip_with entry_of (schedule n roster) ts ∧
    cs = zip (zip_with (request_of m) (schedule n roster)
                (contexts [] seed_greeting ts))
             (Ok <$> rs).

(** The list objects [old] are all still there in the state [st], each as
    it was. *)
Definition keeps {World : Type} (old : list (list HistoryEntry))
    (st : State World) : Prop :=
  (length old ≤ length (heap st))%nat ∧
  ∀ o xs, old !! o = Some xs → heap st !! o = Some xs.

(** * Laws of the statements *)

Section Laws.
Context {World : Type} `{!ModelClient World}.
Implicit Types (st : State World) (l : Locals) (c : Config).

Lemma bind_ok {A B} (m : M World A) (f : A → M World B) st a st' :
  m st = (Ok a, st') → (m ≫= f) st = f a st'.
Proof. intros E. unfold mbind, M_bind. by rewrite E. Qed.

Lemma bind_raise {A B} (m : M World A) (f : A → M World B) st e st' :
  m st = (Raise e, st') → (m ≫= f) st = (Raise e, st').
Proof. intros E. unfold mbind, M_bind. by rewrite E. Qed.

Lemma bind_ok_inv {A B} (m : M World A) (f : A → M World B) st b st2 :
  (m ≫= f) st = (Ok b, st2) →
  ∃ a st1, m st = (Ok a, st1) ∧ f a st1 = (Ok b, st2).
Proof.
  unfold mbind, M_bind. destruct (m st) as [[a|e] st1]; [eauto | discriminate].
Qed.

Lemma for_each_app {A L} (xs ys : list A) (body : A → L → M World L) (v : L) st :
  for_each (xs ++ ys) body v st = (for_each xs body v ≫= for_each ys body) st.
Proof.
  revert v st. induction xs as [|x xs IH]; intros v st; [done|].
  simpl. unfold mbind, M_bind. destruct (body x v st) as [[v'|e] st1]; [|done].
  apply IH.
Qed.

(** A loop ends where its body first raises. *)
Lemma for_each_raise_at {A L} (pre post : list A) x (body : A → L → M World L)
    (v v1 : L) st st1 e st2 :
  for_each pre body v st = (Ok v1, st1) →
  body x v1 st1 = (Raise e, st2) →
  for_each (pre ++ x :: post) body v st = (Raise e, st2).
Proof.
  intros Hpre Hx. rewrite for_each_app, (bind_ok _ _ _ _ _ Hpre). simpl.
  by rewrite (bind_raise _ _ _ _ _ Hx).
Qed.

(** What holds of the state before a loop and is kept by its body,
    whether it returns or raises, holds after the loop. *)
Lemma for_each_preserves {A L} (I : State World → Prop) (xs : list A)
    (body : A → L → M World L) :
  (∀ x v st, I st → I (body x v st).2) →
  ∀ v st, I st → I (for_each xs body v st).2.
Proof.
  intros Hbody. induction xs as [|x xs IH]; intros v st HI; [done|].
  simpl. unfold mbind, M_bind. specialize (Hbody x v st HI).
  destruct (body x v st) as [[v'|e] st1]; simpl in *; [by apply IH | done].
Qed.

(** The body of the inner loop, case by case, when the agent is a dict
    with a system prompt and the history is the list object [h]. *)
Lemma turn_eq c d l st m sp h :
  c !! "model_name" = Some m →
  d !! "system_prompt" = Some sp →
  heap st !! conversation_history l = Some h →
  turn c (PDict d) l st =
    let context := h ++ [user (current_message l)] in
    let q := {| Request.model := m; Request.max_tokens := 1000;
                Request.system := sp; Request.messages := context |} in
    let st1 := {| world := (create q (world st)).2;
                  calls := calls st ++ [(q, (create q (world st)).1)];
                  heap := heap st ++ [context] |} in
    match (create q (world st)).1 with
    | Raise e => (Raise e, st1)
    | Ok response =>
        match first_text response with
        | Raise e => (Raise e, st1)
        | Ok text =>
            match d !! "name" with
            | None => (Raise (KeyError "name"), st1)
            | Some name =>
                (Ok {| messages := messages l ++ [entry name text];
                       conversation_history := conversation_history l;
                       current_message := text |},
                 {| world := world st1; calls := calls st1;
                    heap := <[conversation_history l :=
                              h ++ [user (current_message l); assistant text]]>
                            (heap st1) |})
            end
        end
    end.
Proof.
  intros Hm Hsp Hh.
  assert (Hlt : conversation_history l < length (heap st))
    by (eapply lookup_lt_Some; eauto).
  assert (Hh1 : (heap st ++ [h ++ [user (current_message l)]])
                  !!! conversation_history l = h).
  { apply list_lookup_total_correct. by rewrite lookup_app_l. }
  unfold turn, request_context, advance, messages_create, list_add, list_extend,
    load, lift, mbind, M_bind, mret, M_ret, subscript, getitem.
  rewrite Hm, Hsp. cbn [heap world calls].
  rewrite (list_lookup_total_correct _ _ _ Hh).
  assert (Hnew : (heap st ++ [h ++ [user (current_message l)]])
                   !!! length (heap st) = h ++ [user (current_message l)]).
  { apply list_lookup_total_correct. by rewrite lookup_app_r, Nat.sub_diag. }
  rewrite Hnew.
  destruct (create _ (world st)) as [[response|e] w]; cbn; [|done].
  destruct (first_text response) as [text|e]; cbn; [|done].
  destruct (d !! "name") as [name|]; cbn; [|done].
  by rewrite Hh1.
Qed.

(** ** The plain lists *)

Lemma weave_length cm ts : length (weave cm ts) = 2 * length ts.
Proof. revert cm. induction ts as [|t ts IH]; intros cm; simpl; [done|]. rewrite IH. lia. Qed.

Lemma weave_alternates cm ts : alternates "user" (weave cm ts) = true.
Proof. revert cm. induction ts as [|t ts IH]; intros cm; [done|]. simpl. apply IH. Qed.

Lemma contexts_length h cm ts : length (contexts h cm ts) = length ts.
Proof. revert h cm. induction ts as [|t ts IH]; intros h cm; simpl; [done|]. by rewrite IH. Qed.

(** The first context is the history with the prompt; each later one is
    the one before it with the answer, as the assistant's and then as the
    user's. *)
Lemma contexts_head h cm t ts :
  contexts h cm (t :: ts) !! 0 = Some (h ++ [user cm]).
Proof. done. Qed.

Lemma contexts_step h cm ts i x t :
  contexts h cm ts !! i = Some x →
  ts !! i = Some t →
  S i < length ts →
  contexts h cm ts !! S i = Some (x ++ [assistant t; user t]).
Proof.
  revert h cm i. induction ts as [|t0 ts IH]; intros h cm i Hx Ht Hlt; [done|].
  destruct i as [|i].
  - simpl in Hx, Ht. simplify_eq. destruct ts as [|t1 ts]; [simpl in Hlt; lia|].
    simpl. by rewrite <- !app_assoc.
  - simpl in *. apply IH; [done|done|lia].
Qed.

Lemma schedule_S {A} n (roster : list A) :
  schedule (S n) roster = roster ++ schedule n roster.
Proof. done. Qed.

Lemma schedule_length {A} n (roster : list A) :
  length (schedule n roster) = n * length roster.
Proof.
  induction n as [|n IH]; [done|].
  rewrite schedule_S, length_app, IH. lia.
Qed.

(** The turn of agent [i] in round [r] is turn [r * length roster + i]. *)
Lemma schedule_lookup {A} n (roster : list A) r i :
  r < n → i < length roster →
  schedule n roster !! (r * length roster + i) = roster !! i.
Proof.
  revert r. induction n as [|n IH]; intros r Hr Hi; [lia|].
  rewrite schedule_S. destruct r as [|r].
  - simpl. by rewrite lookup_app_l.
  - rewrite lookup_app_r by lia.
    replace (S r * length roster + i - length roster)
      with (r * length roster + i) by lia.
    apply IH; lia.
Qed.

Lemma schedule_elem_of {A} n (roster : list A) x :
  x ∈ schedule n roster → x ∈ roster.
Proof.
  induction n as [|n IH]; [by intros ?%elem_of_nil|].
  rewrite schedule_S, elem_of_app. intros [?|?]; auto.
Qed.

Lemma schedule_Forall2 {A B} (R : A → B → Prop) n xs ys :
  Forall2 R xs ys → Forall2 R (schedule n xs) (schedule n ys).
Proof.
  intros H. induction n as [|n IH]; [constructor|].
  rewrite !schedule_S. by apply Forall2_app.
Qed.
(** The bar hands out what it was given, or raises. *)
Lemma tqdm_ok xs : (Z.of_nat (length xs) ≤ maxsize)%Z → tqdm xs = Ok xs.
Proof. intros Hlen. unfold tqdm. by rewrite (proj2 (Z.leb_le _ _) Hlen). Qed.

Lemma tqdm_ok_inv xs ys : tqdm xs = Ok ys → ys = xs.
Proof. unfold tqdm. destruct (_ <=? _)%Z; congruence. Qed.

Lemma tqdm_overflow xs :
  (maxsize < Z.of_nat (length xs))%Z → tqdm xs = Raise OverflowError.
Proof.
  intros Hlen. unfold tqdm. by rewrite (proj2 (Z.leb_gt _ _) Hlen).
Qed.

Lemma length_indices (s : Z) :
  length (Z.of_nat <$> seq 0 (Z.to_nat s)) = Z.to_nat s.
Proof. by rewrite length_fmap, length_seq. Qed.

(** A batch of no more than [sys.maxsize] samples is the loop over them. *)
Lemma run_samples_eq c s st :
  default (PInt 1) (c !! "num_samples") = PInt s →
  (s ≤ maxsize)%Z →
  run_samples c st =
    for_each (Z.of_nat <$> seq 0 (Z.to_nat s))
      (λ _ results, result ← _run_conversation c; mret (results ++ [result]))
      [] st.
Proof.
  intros Hs Hmax. unfold run_samples. rewrite Hs. cbn [py_range].
  unfold lift, mbind at 1 2, M_bind at 1 2.
  rewrite tqdm_ok; [done|]. rewrite length_indices. unfold maxsize in *. lia.
Qed.

(** A batch that returns was the loop over its samples. *)
Lemma run_samples_ok_inv c s st results st' :
  default (PInt 1) (c !! "num_samples") = PInt s →
  run_samples c st = (Ok results, st') →
  for_each (Z.of_nat <$> seq 0 (Z.to_nat s))
    (λ _ results, result ← _run_conversation c; mret (results ++ [result]))
    [] st = (Ok results, st').
Proof.
  intros Hs. unfold run_samples. rewrite Hs. cbn [py_range].
  unfold lift, mbind at 1 2, M_bind at 1 2.
  destruct (tqdm _) as [samples|e] eqn:Ht; [|done].
  by apply tqdm_ok_inv in Ht as ->.
Qed.
End Laws.

(** * The course of a successful conversation *)

Section Conversation.
Context {World : Type} `{!ModelClient World}.
Implicit Types (st : State World) (l : Locals) (c : Config).

Lemma turns_ok c m avs ps :
  c !! "model_name" = Some m →
  Forall2 describes avs ps →
  ∀ l st l' st' h,
    heap st !! conversation_history l = Some h →
    for_each avs (turn c) l st = (Ok l', st') →
    ∃ ts rs,
      Forall2 (λ r t, first_text r = Ok t) rs ts ∧
      length ts = length ps ∧
      messages l' = messages l ++ zip_with entry_of ps ts ∧
      conversation_history l' = conversation_history l ∧
      current_message l' = default (current_message l) (last ts) ∧
      heap st' !! conversation_history l
        = Some (h ++ weave (current_message l) ts) ∧
      calls st' = calls st ++
        zip (zip_with (request_of m) ps (contexts h (current_message l) ts))
            (Ok <$> rs).
Proof.
  intros Hm Hd. induction Hd as [|av p avs ps Hav Hd IH]; intros l st l' st' h Hh Hrun.
  - simpl in Hrun. unfold mret, M_ret in Hrun. simplify_eq.
    exists [], []. simpl. rewrite !app_nil_r. by repeat split.
  - destruct Hav as (d & -> & Hname & Hsp).
    simpl in Hrun. apply bind_ok_inv in Hrun as (l1 & st1 & Hturn & Hrest).
    rewrite (turn_eq _ _ _ _ _ _ _ Hm Hsp Hh) in Hturn. cbv zeta in Hturn.
    rewrite Hname in Hturn.
    destruct (create _ (world st)) as [[r|e] w] eqn:Hc; simpl in Hturn; [|done].
    destruct (first_text r) as [t|e] eqn:Hr; [|done].
    simplify_eq.
    assert (Hlt : conversation_history l < length (heap st))
      by (eapply lookup_lt_Some; eauto).
    eapply IH in Hrest as (ts & rs & Hrs & Hlen & Hmsg & Hch & Hcm & Hheap & Hcalls).
    2:{ simpl. apply list_lookup_insert_eq. rewrite length_app. lia. }
    simpl in *.
    exists (t :: ts), (r :: rs). repeat split.
    + by constructor.
    + simpl. by rewrite Hlen.
    + rewrite Hmsg, <- app_assoc. done.
    + done.
    + rewrite Hcm, last_cons. by destruct (last ts).
    + rewrite Hheap. f_equal. by rewrite <- app_assoc.
    + rewrite Hcalls, <- app_assoc. done.
Qed.

Lemma round_eq c avs l st :
  c !! "agents" = Some (PList avs) →
  round c l st = for_each avs (turn c) l st.
Proof.
  intros Ha. unfold round, lift, getitem, mbind, M_bind. by rewrite Ha.
Qed.

(** The two nested loops make one pass over the schedule. *)
Lemma rounds_flat c avs (rounds : list Z) l st :
  c !! "agents" = Some (PList avs) →
  for_each rounds (λ _, round c) l st
  = for_each (schedule (length rounds) avs) (turn c) l st.
Proof.
  intros Ha. revert l st. induction rounds as [|r rounds IH]; intros l st; [done|].
  simpl length. rewrite schedule_S, for_each_app. simpl.
  unfold mbind, M_bind. rewrite (round_eq _ _ _ _ Ha).
  destruct (for_each avs (turn c) l st) as [[l1|e] st1]; [apply IH | done].
Qed.

Lemma conversation_eq c n avs st :
  c !! "num_turns" = Some (PInt (Z.of_nat n)) →
  c !! "agents" = Some (PList avs) →
  conversation c st
  = for_each (schedule n avs) (turn c) (first_locals st) (first_state st).
Proof.
  intros Hn Ha. unfold conversation, new_list, lift, getitem, mbind, M_bind.
  rewrite Hn. simpl. rewrite (rounds_flat _ _ _ _ _ Ha).
  by rewrite length_fmap, length_seq, Nat2Z.id.
Qed.

Lemma conversation_ok c n roster st l st' :
  valid_config c n roster →
  conversation c st = (Ok l, st') →
  ∃ m ts rs,
    c !! "model_name" = Some m ∧
    Forall2 (λ r t, first_text r = Ok t) rs ts ∧
    length ts = n * length roster ∧
    messages l = zip_with entry_of (schedule n roster) ts ∧
    conversation_history l = length (heap st) ∧
    current_message l = default seed_greeting (last ts) ∧
    heap st' !! length (heap st) = Some (weave seed_greeting ts) ∧
    calls st' = calls st ++
      zip (zip_with (request_of m) (schedule n roster)
             (contexts [] seed_greeting ts))
          (Ok <$> rs).
Proof.
  intros [[m Hm] [Hn _] (avs & Ha & Hd & _) _] Hrun.
  rewrite (conversation_eq _ _ _ _ Hn Ha) in Hrun.
  eapply (turns_ok _ _ _ _ Hm (schedule_Forall2 _ n _ _ Hd)) in Hrun
    as (ts & rs & Hrs & Hlen & Hmsg & Hch & Hcm & Hheap & Hcalls).
  2:{ simpl. by rewrite lookup_app_r, Nat.sub_diag. }
  exists m, ts, rs. simpl in *. rewrite schedule_length in Hlen.
  repeat split; done.
Qed.
End Conversation.

(** * The claims *)

Section Turns.
Context {World : Type} `{!ModelClient World}.
Implicit Types (st : State World) (l : Locals) (c : Config).

(** A turn that returns had a dict for an agent, and a model name. *)
Lemma turn_ok_dict c agent_config l st l1 st1 :
  turn c agent_config l st = (Ok l1, st1) →
  ∃ d m sp, agent_config = PDict d ∧ c !! "model_name" = Some m ∧
            d !! "system_prompt" = Some sp.
Proof.
  unfold turn, lift, getitem, subscript, mbind, M_bind. intros H.
  destruct (c !! "model_name") as [m|]; [|done].
  destruct agent_config as [| | | | |d]; try done.
  unfold getitem in H. destruct (d !! "system_prompt") as [sp|] eqn:Hsp; [|done].
  by exists d, m, sp.
Qed.

(** A turn that returns has put the prompt and the answer at the end of
    the history, and one entry at the end of the transcript. *)
Lemma turn_ok_inv c agent_config l st l1 st1 h :
  heap st !! conversation_history l = Some h →
  turn c agent_config l st = (Ok l1, st1) →
  ∃ name text,
    messages l1 = messages l ++ [entry name text] ∧
    conversation_history l1 = conversation_history l ∧
    current_message l1 = text ∧
    heap st1 !! conversation_history l
      = Some (h ++ [user (current_message l); assistant text]).
Proof.
  intros Hh Hturn.
  destruct (turn_ok_dict _ _ _ _ _ _ Hturn) as (d & m & sp & -> & Hm & Hsp).
  rewrite (turn_eq _ _ _ _ _ _ _ Hm Hsp Hh) in Hturn. cbv zeta in Hturn.
  destruct (create _ (world st)) as [[r|e] w]; simpl in Hturn; [|done].
  destruct (first_text r) as [t|e]; [|done].
  destruct (d !! "name") as [nm|]; [|done].
  simplify_eq. exists nm, t. simpl. repeat split.
  apply list_lookup_insert_eq. rewrite length_app.
  apply lookup_lt_Some in Hh. lia.
Qed.
End Turns.

Section Claims.
Context {World : Type} `{!ModelClient World}.
Implicit Types (st : State World) (l : Locals) (c : Config).

(** C1: for a valid configuration and a conversation that completes, the
    history sent to the model alternates its roles, "user" first, and
    has exactly [2 * num_turns * len(agents)] entries, two for each entry
    of the transcript; and every turn that completes puts exactly two
    entries at its end, a "user" one and an "assistant" one. *)
Theorem history_alternates c n roster st l st' :
  valid_config c n roster →
  conversation c st = (Ok l, st') →
  (∃ history,
     heap st' !! conversation_history l = Some history ∧
     alternates "user" history = true ∧
     length history = 2 * n * length roster ∧
     length history = 2 * length (messages l)) ∧
  (∀ agent_config l0 st0 l1 st1 h0,
     heap st0 !! conversation_history l0 = Some h0 →
     turn c agent_config l0 st0 = (Ok l1, st1) →
     ∃ h1 e1 e2,
       heap st1 !! conversation_history l1 = Some h1 ∧
       h1 = h0 ++ [e1; e2] ∧ role e1 = "user" ∧ role e2 = "assistant" ∧
       length h1 = length h0 + 2 ∧
       length (messages l1) = length (messages l0) + 1).
Proof.
  intros Hv Hrun. split.
  - destruct (conversation_ok _ _ _ _ _ _ Hv Hrun)
      as (m & ts & rs & _ & _ & Hlen & Hmsg & Hch & _ & Hheap & _).
    exists (weave seed_greeting ts). rewrite Hch. split; [done|].
    split; [apply weave_alternates|].
    rewrite weave_length, Hmsg, length_zip_with, schedule_length, Hlen. lia.
  - intros a l0 st0 l1 st1 h0 Hh Hturn.
    destruct (turn_ok_inv _ _ _ _ _ _ _ Hh Hturn) as (nm & t & Hmsg & Hch & _ & Hheap).
    exists (h0 ++ [user (current_message l0); assistant t]),
      (user (current_message l0)), (assistant t).
    rewrite Hch, Hmsg, !length_app. simpl. repeat split; (done || lia).
Qed.
End Claims.

Lemma describes_agent_dict p : describes (agent_dict p) p.
Proof. eexists. split; [done|]. split; by simplify_map_eq. Qed.

Lemma duo_config_valid : valid_config duo_config 2 [alice; bob].
Proof.
  split.
  - by eexists.
  - split; [done | lia].
  - eexists. split; [done|]. split; [|done].
    repeat constructor; apply describes_agent_dict.
  - exists 1%Z. split; [done | lia].
Qed.

Lemma history_alternates_witness :
  ∃ l st' history,
    conversation duo_config (start [reply "one"; reply "two"]) = (Ok l, st') ∧
    heap st' !! conversation_history l = Some history ∧
    alternates "user" history = true ∧
    length history = 8.
Proof.
  destruct (conversation duo_config (start [reply "one"; reply "two"]))
    as [[l|e] st'] eqn:Hrun; [|by vm_compute in Hrun].
  destruct (history_alternates _ _ _ _ _ _ duo_config_valid Hrun)
    as [(h & Hh & Ha & Hl & _) _].
  exists l, st', h. split; [reflexivity|]. split; [exact Hh|].
  split; [exact Ha | exact Hl].
Defined.

(** * The trace of a successful run *)

Section Trace.
Context {World : Type} `{!ModelClient World}.
Implicit Types (st : State World) (l : Locals) (c : Config).

Lemma run_conversation_inv c st msgs st' :
  _run_conversation c st = (Ok msgs, st') →
  ∃ l, conversation c st = (Ok l, st') ∧ msgs = messages l.
Proof.
  intros H. apply bind_ok_inv in H as (l & st1 & Hl & Hret).
  unfold mret, M_ret in Hret. simplify_eq. by exists l.
Qed.

Lemma calls_since_app st st' new :
  calls st' = calls st ++ new → calls_since st st' = new.
Proof. unfold calls_since. intros ->. by rewrite drop_app_length. Qed.

(** The transcript and the calls of a run that returns, turn by turn. *)
Lemma run_conversation_trace c n roster st msgs st' :
  valid_config c n roster →
  _run_conversation c st = (Ok msgs, st') →
  ∃ m ts rs,
    c !! "model_name" = Some m ∧
    Forall2 (λ r t, first_text r = Ok t) rs ts ∧
    length ts = length (schedule n roster) ∧
    msgs = zip_with entry_of (schedule n roster) ts ∧
    calls_since st st' =
      zip (zip_with (request_of m) (schedule n roster)
             (contexts [] seed_greeting ts))
          (Ok <$> rs).
Proof.
  intros Hv Hrun. apply run_conversation_inv in Hrun as (l & Hrun & ->).
  destruct (conversation_ok _ _ _ _ _ _ Hv Hrun)
    as (m & ts & rs & Hm & Hrs & Hlen & Hmsg & _ & _ & _ & Hcalls).
  exists m, ts, rs. rewrite schedule_length.
  repeat split; try done. by apply calls_since_app.
Qed.

(** Turn [i] of a trace: who spoke, what was asked, what came back. *)
Lemma trace_lookup (m : PyVal) (sched : list AgentProfile) ts rs h cm i p :
  Forall2 (λ r t, first_text r = Ok t) rs ts →
  length ts = length sched →
  sched !! i = Some p →
  ∃ t r context,
    ts !! i = Some t ∧ rs !! i = Some r ∧ first_text r = Ok t ∧
    contexts h cm ts !! i = Some context ∧
    zip_with entry_of sched ts !! i = Some (entry_of p t) ∧
    zip (zip_with (request_of m) sched (contexts h cm ts)) (Ok <$> rs) !! i
      = Some (request_of m p context, Ok r).
Proof.
  intros Hrs Hlen Hp.
  assert (Hi : i < length ts) by (rewrite Hlen; by eapply lookup_lt_Some).
  destruct (lookup_lt_is_Some_2 ts i Hi) as [t Ht].
  destruct (Forall2_lookup_r _ _ _ _ _ Hrs Ht) as (r & Hr & Hrt).
  destruct (lookup_lt_is_Some_2 (contexts h cm ts) i) as [context Hc];
    [by rewrite contexts_length|].
  exists t, r, context. repeat split; try done.
  - by rewrite lookup_zip_with, Hp, Ht.
  - rewrite !lookup_zip_with, Hp, Hc, list_lookup_fmap, Hr. done.
Qed.
End Trace.

Section Transcript.
Context {World : Type} `{!ModelClient World}.
Implicit Types (st : State World) (l : Locals) (c : Config).

(** C2: for a valid configuration, a run of [_run_conversation] that
    returns gives a transcript of exactly [num_turns * len(agents)]
    entries, each with the role "assistant" and the name of an agent of
    the roster as its speaker, in the order of the calls: entry [i] holds
    the text of the answer to call [i] of the run. *)
Theorem transcript_shape c n roster st msgs st' :
  valid_config c n roster →
  _run_conversation c st = (Ok msgs, st') →
  length msgs = n * length roster ∧
  Forall (λ e, t_role e = "assistant" ∧
               ∃ p, p ∈ roster ∧ speaker e = PStr (name p)) msgs ∧
  length (calls_since st st') = length msgs ∧
  ∀ i e, msgs !! i = Some e →
    ∃ q r, calls_since st st' !! i = Some (q, Ok r) ∧
           first_text r = Ok (t_content e).
Proof.
  intros Hv Hrun.
  destruct (run_conversation_trace _ _ _ _ _ _ Hv Hrun)
    as (m & ts & rs & Hm & Hrs & Hlen & -> & Hcalls).
  pose proof (Forall2_length _ _ _ Hrs) as Hlrs.
  assert (Hlmsgs : length (zip_with entry_of (schedule n roster) ts)
                   = n * length roster).
  { rewrite length_zip_with, Hlen, schedule_length. lia. }
  split; [done|]. split; [|split].
  - apply Forall_lookup. intros i e He.
    apply lookup_zip_with_Some in He as (p & t & -> & Hp & Ht).
    split; [done|]. exists p. split; [|done].
    eapply schedule_elem_of, list_elem_of_lookup_2, Hp.
  - rewrite Hcalls, Hlmsgs, !length_zip_with, length_fmap, contexts_length.
    rewrite schedule_length in *. lia.
  - intros i e He.
    apply lookup_zip_with_Some in He as (p & t & -> & Hp & Ht).
    destruct (trace_lookup m _ _ _ [] seed_greeting _ _ Hrs Hlen Hp)
      as (t' & r & context & Ht' & _ & Hrt & _ & _ & Hcall).
    rewrite Hcalls. simplify_eq. eauto.
Qed.

(** C4: for a valid configuration and a run that returns, the turn of
    the agent at place [i] of the roster in round [r] is turn
    [r * len(agents) + i], of the transcript and of the calls alike: the
    speakers of a round come in the order of the roster, the rounds one
    after the other, and no turn is left out. *)
Theorem roster_order c n roster st msgs st' :
  valid_config c n roster →
  _run_conversation c st = (Ok msgs, st') →
  length msgs = n * length roster ∧
  ∀ r i p, r < n → roster !! i = Some p →
    ∃ e q o,
      msgs !! (r * length roster + i) = Some e ∧
      speaker e = PStr (name p) ∧
      calls_since st st' !! (r * length roster + i) = Some (q, o) ∧
      Request.system q = PStr (system_prompt p).
Proof.
  intros Hv Hrun.
  destruct (run_conversation_trace _ _ _ _ _ _ Hv Hrun)
    as (m & ts & rs & Hm & Hrs & Hlen & -> & Hcalls).
  split.
  { rewrite length_zip_with, Hlen, schedule_length. lia. }
  intros r i p Hr Hp.
  assert (Hs : schedule n roster !! (r * length roster + i) = Some p).
  { rewrite schedule_lookup; [done|done|]. by eapply lookup_lt_Some. }
  destruct (trace_lookup m _ _ _ [] seed_greeting _ _ Hrs Hlen Hs)
    as (t & resp & context & _ & _ & _ & _ & Hmsg & Hcall).
  exists (entry_of p t), (request_of m p context), (Ok resp).
  rewrite Hcalls. done.
Qed.
End Transcript.

Lemma transcript_shape_witness :
  ∃ msgs st',
    _run_conversation duo_config (start [reply "one"; reply "two"])
      = (Ok msgs, st') ∧
    length msgs = 4 ∧
    Forall (λ e, t_role e = "assistant" ∧
                 ∃ p, p ∈ [alice; bob] ∧ speaker e = PStr (name p)) msgs.
Proof.
  destruct (_run_conversation duo_config (start [reply "one"; reply "two"]))
    as [[msgs|e] st'] eqn:Hrun; [|by vm_compute in Hrun].
  destruct (transcript_shape _ _ _ _ _ _ duo_config_valid Hrun)
    as (Hlen & Hall & _).
  exists msgs, st'. split; [reflexivity|]. split; [exact Hlen | exact Hall].
Defined.

Lemma roster_order_witness :
  ∃ msgs st' e,
    _run_conversation duo_config (start [reply "one"; reply "two"])
      = (Ok msgs, st') ∧
    msgs !! 3 = Some e ∧ speaker e = PStr "B".
Proof.
  destruct (_run_conversation duo_config (start [reply "one"; reply "two"]))
    as [[msgs|e] st'] eqn:Hrun; [|by vm_compute in Hrun].
  destruct (roster_order _ _ _ _ _ _ duo_config_valid Hrun) as [_ Hturn].
  destruct (Hturn 1 1 bob) as (e & q & o & He & Hsp & _); [lia|reflexivity|].
  exists msgs, st', e. split; [reflexivity|]. split; [exact He | exact Hsp].
Defined.

Section Threading.
Context {World : Type} `{!ModelClient World}.
Implicit Types (st : State World) (l : Locals) (c : Config).

Lemma advance_eq text l st h :
  heap st !! conversation_history l = Some h →
  advance text l st =
    (Ok {| messages := messages l;
           conversation_history := conversation_history l;
           current_message := text |},
     {| world := world st; calls := calls st;
        heap := <[conversation_history l :=
                  h ++ [user (current_message l); assistant text]]> (heap st) |}).
Proof.
  intros Hh. unfold advance, list_extend, mbind, M_bind, mret, M_ret.
  by rewrite (list_lookup_total_correct _ _ _ Hh).
Qed.

(** C3: the advance step puts the prompt, as the user's, and the answer,
    as the assistant's, at the end of the history and makes the answer
    the next prompt; so, in a run that returns for a valid
    configuration, the first call carries the seed greeting alone, as one
    user message, and each later call carries the context of the call
    before it, then the answer to that call as the assistant's, then the
    same answer as the user's. With the agents A and B and two rounds the
    contexts and the transcript are the ones of the example. *)
Theorem context_threading c n roster st msgs st' :
  valid_config c n roster →
  _run_conversation c st = (Ok msgs, st') →
  (∀ text l st0 h,
     heap st0 !! conversation_history l = Some h →
     advance text l st0 =
       (Ok {| messages := messages l;
              conversation_history := conversation_history l;
              current_message := text |},
        {| world := world st0; calls := calls st0;
           heap := <[conversation_history l :=
                     h ++ [user (current_message l); assistant text]]>
                   (heap st0) |})) ∧
  (∃ q o, calls_since st st' !! 0 = Some (q, o) ∧
          Request.messages q = [user seed_greeting]) ∧
  (∀ i q r t q' o',
     calls_since st st' !! i = Some (q, Ok r) →
     first_text r = Ok t →
     calls_since st st' !! S i = Some (q', o') →
     Request.messages q' = Request.messages q ++ [assistant t; user t]) ∧
  (∀ A B, roster = [A; B] → n = 2 →
     ∃ t1 t2 t3 t4,
       msgs = [entry_of A t1; entry_of B t2; entry_of A t3; entry_of B t4] ∧
       Request.messages <$> (calls_since st st').*1 =
         [ [user seed_greeting];
           [user seed_greeting; assistant t1; user t1];
           [user seed_greeting; assistant t1; user t1; assistant t2; user t2];
           [user seed_greeting; assistant t1; user t1; assistant t2; user t2;
            assistant t3; user t3] ]).
Proof.
  intros Hv Hrun.
  destruct (run_conversation_trace _ _ _ _ _ _ Hv Hrun)
    as (m & ts & rs & Hm & Hrs & Hlen & -> & Hcalls).
  split; [intros; by apply advance_eq|]. split; [|split].
  - destruct Hv as [_ [_ Hn] (avs & _ & _ & Hne) _].
    destruct roster as [|p roster]; [done|]. destruct n as [|n]; [lia|].
    assert (Hs : schedule (S n) (p :: roster) !! 0 = Some p) by done.
    destruct (trace_lookup m _ _ _ [] seed_greeting _ _ Hrs Hlen Hs)
      as (t & r & context & Ht & _ & _ & Hc & _ & Hcall).
    exists (request_of m p context), (Ok r). rewrite Hcalls. split; [done|].
    destruct ts as [|t0 ts]; [done|]. simpl in Hc. by simplify_eq.
  - intros i q r t q' o' Hq Ht Hq'. rewrite Hcalls in Hq, Hq'.
    pose proof Hq as Hq0. pose proof Hq' as Hq0'.
    apply lookup_zip_with_Some in Hq0 as (q0 & o0 & _ & Hreq & _).
    apply lookup_zip_with_Some in Hreq as (p & ctx0 & _ & Hp & _).
    apply lookup_zip_with_Some in Hq0' as (q1 & o1 & _ & Hreq' & _).
    apply lookup_zip_with_Some in Hreq' as (p' & ctx1 & _ & Hp' & _).
    destruct (trace_lookup m _ _ _ [] seed_greeting _ _ Hrs Hlen Hp)
      as (ti & ri & ctx & Hti & _ & Hrti & Hctx & _ & Hcall).
    destruct (trace_lookup m _ _ _ [] seed_greeting _ _ Hrs Hlen Hp')
      as (ti' & ri' & ctx' & Hti' & _ & _ & Hctx' & _ & Hcall').
    pose proof (eq_trans (eq_sym Hq) Hcall) as Heq.
    pose proof (eq_trans (eq_sym Hq') Hcall') as Heq'.
    clear Hq Hq' Hcall Hcall'. simplify_eq.
    assert (ti = t) as -> by congruence.
    rewrite (contexts_step _ _ _ _ _ _ Hctx Hti) in Hctx';
      [|by eapply lookup_lt_Some].
    by simplify_eq.
  - intros A B -> ->. simpl in Hlen.
    pose proof (Forall2_length _ _ _ Hrs) as Hlrs. rewrite Hlen in Hlrs.
    destruct ts as [|t1 [|t2 [|t3 [|t4 [|]]]]]; try done.
    destruct rs as [|r1 [|r2 [|r3 [|r4 [|]]]]]; try done.
    exists t1, t2, t3, t4. rewrite Hcalls. done.
Qed.
End Threading.

Lemma context_threading_witness :
  ∃ msgs st' t1 t2 t3 t4,
    _run_conversation duo_config (start [reply "one"; reply "two"])
      = (Ok msgs, st') ∧
    msgs = [entry_of alice t1; entry_of bob t2; entry_of alice t3; entry_of bob t4] ∧
    Request.messages <$> (calls_since (start [reply "one"; reply "two"]) st').*1 =
      [ [user seed_greeting];
        [user seed_greeting; assistant t1; user t1];
        [user seed_greeting; assistant t1; user t1; assistant t2; user t2];
        [user seed_greeting; assistant t1; user t1; assistant t2; user t2;
         assistant t3; user t3] ].
Proof.
  destruct (_run_conversation duo_config (start [reply "one"; reply "two"]))
    as [[msgs|e] st'] eqn:Hrun; [|by vm_compute in Hrun].
  destruct (context_threading _ _ _ _ _ _ duo_config_valid Hrun)
    as (_ & _ & _ & Hex).
  destruct (Hex alice bob eq_refl eq_refl) as (t1 & t2 & t3 & t4 & Hm & Hc).
  exists msgs, st', t1, t2, t3, t4.
  split; [reflexivity|]. split; [exact Hm | exact Hc].
Defined.

Section Context.
Context {World : Type} `{!ModelClient World}.
Implicit Types (st : State World) (l : Locals) (c : Config).

(** Building the context allocates one list object and touches no other. *)
Lemma request_context_eq l st h :
  heap st !! conversation_history l = Some h →
  request_context l st =
    (Ok (h ++ [user (current_message l)]),
     {| world := world st; calls := calls st;
        heap := heap st ++ [h ++ [user (current_message l)]] |}).
Proof.
  intros Hh. unfold request_context, list_add, load, mbind, M_bind.
  cbn [heap world calls].
  rewrite (list_lookup_total_correct _ _ _ Hh).
  f_equal. f_equal. apply list_lookup_total_correct.
  by rewrite lookup_app_r, Nat.sub_diag.
Qed.

(** C8: building the context of a call, when the history holds [h] and the
    prompt is [current_message], returns [h ++ [{user, current_message}]]
    and leaves the history, every other list object, the client and the
    record of the calls as they were; building it once more, with no
    advance in between, returns the same list; and a turn that returns has
    sent exactly this list. *)
Theorem request_context_pure l st h :
  heap st !! conversation_history l = Some h →
  ∃ st1 st2,
    request_context l st = (Ok (h ++ [user (current_message l)]), st1) ∧
    request_context l st1 = (Ok (h ++ [user (current_message l)]), st2) ∧
    (world st1 = world st ∧ calls st1 = calls st ∧
     heap st1 !! conversation_history l = Some h ∧
     ∀ o xs, heap st !! o = Some xs → heap st1 !! o = Some xs) ∧
    (world st2 = world st ∧ calls st2 = calls st ∧
     heap st2 !! conversation_history l = Some h ∧
     ∀ o xs, heap st !! o = Some xs → heap st2 !! o = Some xs) ∧
    (∀ c agent_config l1 st',
       turn c agent_config l st = (Ok l1, st') →
       ∃ q o, calls st' = calls st ++ [(q, o)] ∧
              Request.messages q = h ++ [user (current_message l)]).
Proof.
  intros Hh.
  assert (Hkeep : ∀ (hp : list (list HistoryEntry)) new o xs,
             hp !! o = Some xs → (hp ++ new) !! o = Some xs).
  { intros hp new o xs Ho. rewrite lookup_app_l; [done|].
    by eapply lookup_lt_Some. }
  pose proof (request_context_eq l st h Hh) as H1.
  set (st1 := {| world := world st; calls := calls st;
                 heap := heap st ++ [h ++ [user (current_message l)]] |}) in *.
  assert (Hh1 : heap st1 !! conversation_history l = Some h)
    by (by apply Hkeep).
  pose proof (request_context_eq l st1 h Hh1) as H2.
  eexists st1, _. split; [exact H1|]. split; [exact H2|].
  split; [|split].
  - repeat split; try done. intros o xs Ho. by apply Hkeep.
  - repeat split; try done; cbn [heap].
    + by apply Hkeep.
    + intros o xs Ho. by apply Hkeep, Hkeep.
  - intros c a l1 st' Hturn.
    destruct (turn_ok_dict _ _ _ _ _ _ Hturn) as (d & m & sp & -> & Hm & Hsp).
    rewrite (turn_eq _ _ _ _ _ _ _ Hm Hsp Hh) in Hturn. cbv zeta in Hturn.
    destruct (create _ (world st)).1 as [resp|e] eqn:Hc; [|done].
    destruct (first_text resp) as [t|e]; [|done].
    destruct (d !! "name") as [nm|]; [|done].
    injection Hturn as <- <-. cbn [calls]. eauto.
Qed.
End Context.

Lemma request_context_pure_witness :
  ∃ st1 st2,
    request_context (first_locals (start [])) (first_state (start []))
      = (Ok [user seed_greeting], st1) ∧
    request_context (first_locals (start [])) st1
      = (Ok [user seed_greeting], st2).
Proof.
  destruct (request_context_pure (first_locals (start []))
              (first_state (start [])) [] eq_refl)
    as (st1 & st2 & H1 & H2 & _).
  exists st1, st2. split; [exact H1 | exact H2].
Defined.

Section Arguments.
Context {World : Type} `{!ModelClient World}.
Implicit Types (st : State World) (l : Locals) (c : Config).

Lemma transcript_texts (sched : list AgentProfile) ts :
  length ts = length sched →
  t_content <$> zip_with entry_of sched ts = ts.
Proof.
  revert ts. induction sched as [|p sched IH]; intros [|t ts] Hlen; try done.
  simpl. f_equal. apply IH. simpl in Hlen. lia.
Qed.

(** Turn [j] of the schedule is the turn of agent [j mod len(agents)]. *)
Lemma schedule_lookup_mod {A} n (roster : list A) j :
  j < n * length roster →
  schedule n roster !! j = roster !! (j mod length roster).
Proof.
  intros Hj.
  assert (Hk : length roster ≠ 0) by (intros Hz; rewrite Hz in Hj; lia).
  pose proof (Nat.div_mod_eq j (length roster)) as Hdm.
  pose proof (Nat.mod_upper_bound j (length roster) Hk) as Hlt.
  assert (Hr : j `div` length roster < n).
  { apply Nat.Div0.div_lt_upper_bound. lia. }
  rewrite <- (schedule_lookup n roster _ _ Hr Hlt). f_equal. lia.
Qed.

(** C9, as the code has it: for a valid configuration and a run that
    returns, there are exactly [num_turns * len(agents)] calls, and call [j]
    carries the model name of the configuration, the system prompt of the
    agent whose turn it is, the context built from the answers so far, and
    the literal 1000 as [max_tokens], whatever the configuration holds. *)
Theorem call_arguments c n roster st msgs st' :
  valid_config c n roster →
  _run_conversation c st = (Ok msgs, st') →
  length (calls_since st st') = n * length roster ∧
  ∀ j q o, calls_since st st' !! j = Some (q, o) →
    ∃ p, roster !! (j mod length roster) = Some p ∧
         c !! "model_name" = Some (Request.model q) ∧
         Request.system q = PStr (system_prompt p) ∧
         contexts [] seed_greeting (t_content <$> msgs) !! j
           = Some (Request.messages q) ∧
         Request.max_tokens q = 1000%Z.
Proof.
  intros Hv Hrun.
  destruct (run_conversation_trace _ _ _ _ _ _ Hv Hrun)
    as (m & ts & rs & Hm & Hrs & Hlen & -> & Hcalls).
  pose proof (Forall2_length _ _ _ Hrs) as Hlrs.
  rewrite (transcript_texts _ _ Hlen), Hcalls. split.
  { rewrite !length_zip_with, length_fmap, contexts_length.
    rewrite schedule_length in *. lia. }
  intros j q o Hq. pose proof Hq as Hq0.
  apply lookup_zip_with_Some in Hq0 as (q0 & o0 & _ & Hreq & _).
  apply lookup_zip_with_Some in Hreq as (p & ctx0 & _ & Hp & _).
  destruct (trace_lookup m _ _ _ [] seed_greeting _ _ Hrs Hlen Hp)
    as (t & r & ctx & _ & _ & _ & Hctx & _ & Hcall).
  pose proof (eq_trans (eq_sym Hq) Hcall) as Heq. clear Hq Hcall.
  simplify_eq. exists p. split; [|done].
  rewrite <- (schedule_lookup_mod n); [done|].
  rewrite <- schedule_length. by eapply lookup_lt_Some.
Qed.
End Arguments.

(** C9, as the specification words it, fails: a configuration that carries
    a ceiling of 500 gets its call issued with 1000. *)
Lemma token_ceiling_is_not_the_configured_one :
  ceiling_config !! "max_tokens" = Some (PInt 500) ∧
  ceiling_config !! "token_ceiling" = Some (PInt 500) ∧
  ∃ msgs st',
    _run_conversation ceiling_config (start [reply "a"]) = (Ok msgs, st') ∧
    Request.max_tokens <$> (calls st').*1 = [1000%Z] ∧
    ¬ Forall (λ q, PInt (Request.max_tokens q) = PInt 500) (calls st').*1.
Proof.
  split; [done|]. split; [done|].
  eexists _, _. split; [vm_compute; reflexivity|].
  split; [done|]. intros Hall. by apply Forall_cons_1 in Hall as [? _].
Qed.

Lemma call_arguments_witness :
  ∃ msgs st',
    _run_conversation duo_config (start [reply "one"; reply "two"])
      = (Ok msgs, st') ∧
    length (calls_since (start [reply "one"; reply "two"]) st') = 4.
Proof.
  destruct (_run_conversation duo_config (start [reply "one"; reply "two"]))
    as [[msgs|e] st'] eqn:Hrun; [|by vm_compute in Hrun].
  destruct (call_arguments _ _ _ _ _ _ duo_config_valid Hrun) as [Hlen _].
  exists msgs, st'. split; [reflexivity | exact Hlen].
Defined.

Section Degenerate.
Context {World : Type} `{!ModelClient World}.
Implicit Types (st : State World) (l : Locals) (c : Config).

(** Rounds over an empty roster change nothing. *)
Lemma rounds_of_nobody c (rounds : list Z) l st :
  c !! "agents" = Some (PList []) →
  for_each rounds (λ _, round c) l st = (Ok l, st).
Proof.
  intros Ha. rewrite (rounds_flat _ _ _ _ _ Ha).
  assert (schedule (length rounds) ([] : list PyVal) = []) as ->; [|done].
  induction (length rounds) as [|k IH]; [done|]. by rewrite schedule_S, IH.
Qed.

(** Samples that all come back empty. *)
Lemma samples_of_nothing c (samples : list Z) :
  (∀ st, _run_conversation c st = (Ok [], first_state st)) →
  ∀ acc st,
    for_each samples
      (λ _ results, result ← _run_conversation c; mret (results ++ [result]))
      acc st
    = (Ok (acc ++ replicate (length samples) []),
       {| world := world st; calls := calls st;
          heap := heap st ++ replicate (length samples) [] |}).
Proof.
  intros Hrun. induction samples as [|s samples IH]; intros acc st.
  - destruct st. simpl. by rewrite !app_nil_r.
  - simpl. unfold mbind at 1, M_bind at 1. unfold mbind at 1, M_bind at 1.
    rewrite Hrun. unfold mret at 1, M_ret at 1. rewrite IH. simpl.
    by rewrite <- !app_assoc.
Qed.

(** C5, as the code has it: nothing checks the configuration. With no
    sample to run, [run_samples] returns the empty list of results; with no
    round to play or nobody on the roster, every sample returns the empty
    transcript, for any number of samples the progress bar can count (up to
    [sys.maxsize]). In each case no error is raised, no call is issued, and
    each sample that runs has made its empty history. *)
Theorem degenerate_config_runs c s st :
  default (PInt 1) (c !! "num_samples") = PInt s →
  (s ≤ maxsize)%Z →
  (s ≤ 0)%Z ∨
  (∃ z, c !! "num_turns" = Some (PInt z) ∧ (z ≤ 0)%Z) ∨
  (c !! "agents" = Some (PList []) ∧ ∃ z, c !! "num_turns" = Some (PInt z)) →
  run_samples c st =
    (Ok (replicate (Z.to_nat s) []),
     {| world := world st; calls := calls st;
        heap := heap st ++ replicate (Z.to_nat s) [] |}).
Proof.
  intros Hs Hmax Hdeg. rewrite (run_samples_eq _ _ _ Hs Hmax).
  destruct Hdeg as [Hneg | Hdeg].
  { replace (Z.to_nat s) with 0 by lia. destruct st. simpl.
    by rewrite app_nil_r. }
  rewrite (samples_of_nothing c); [by rewrite length_fmap, length_seq|].
  intros st0. unfold _run_conversation, conversation, new_list, lift, getitem.
  unfold mbind, M_bind, mret, M_ret.
  destruct Hdeg as [(z & -> & Hz) | (Ha & z & ->)]; simpl.
  - by replace (Z.to_nat z) with 0 by lia.
  - by rewrite (rounds_of_nobody _ _ _ _ Ha).
Qed.
End Degenerate.

(** C5, as the specification words it, fails: an empty roster, no round and
    no sample are all run, to empty results, and nothing is rejected. *)
Lemma nothing_is_rejected :
  (run_samples empty_roster_config (start [])).1 = Ok [[]] ∧
  (run_samples no_round_config (start [])).1 = Ok [[]] ∧
  (run_samples no_sample_config (start [])).1 = Ok [] ∧
  ∀ c, c ∈ [empty_roster_config; no_round_config; no_sample_config] →
       ∀ e, (run_samples c (start [])).1 ≠ Raise e.
Proof.
  split; [by vm_compute|]. split; [by vm_compute|]. split; [by vm_compute|].
  intros c Hc e. repeat (apply elem_of_cons in Hc as [-> | Hc]);
    [by vm_compute ..|]. by apply elem_of_nil in Hc.
Qed.

Lemma degenerate_config_runs_witness :
  run_samples empty_roster_config (start [])
  = (Ok [[]], {| world := []; calls := []; heap := [[]] |}).
Proof.
  apply (degenerate_config_runs empty_roster_config 1 (start [])).
  - reflexivity.
  - unfold maxsize. lia.
  - right. right. split; [reflexivity|]. exists 1%Z. reflexivity.
Defined.

Section Batch.
Context {World : Type} `{!ModelClient World}.
Implicit Types (st : State World) (l : Locals) (c : Config).

Lemma for_each_ext {A L} (xs : list A) (body1 body2 : A → L → M World L) :
  (∀ x v st, body1 x v st = body2 x v st) →
  ∀ v st, for_each xs body1 v st = for_each xs body2 v st.
Proof.
  intros Hb. induction xs as [|x xs IH]; intros v st; [done|].
  simpl. unfold mbind, M_bind. rewrite Hb.
  destruct (body2 x v st) as [[v'|e] st1]; [apply IH | done].
Qed.

(** A conversation reads the model name, the number of rounds and the
    roster, and never the number of samples. *)
Lemma run_conversation_ignores_num_samples c v st :
  _run_conversation (<["num_samples" := v]> c) st = _run_conversation c st.
Proof.
  assert (Hturn : ∀ a l st0,
            turn (<["num_samples" := v]> c) a l st0 = turn c a l st0).
  { intros a l st0. unfold turn, getitem. by rewrite lookup_insert_ne. }
  assert (Hround : ∀ (r : Z) l st0,
            round (<["num_samples" := v]> c) l st0 = round c l st0).
  { intros _ l st0. unfold round, getitem, lift, mbind, M_bind.
    rewrite lookup_insert_ne by done.
    destruct (c !! "agents") as [a|]; [|done].
    destruct (py_iter a) as [roster|e]; [|done]. by apply for_each_ext. }
  unfold _run_conversation, conversation, getitem, lift, new_list, mbind, M_bind.
  rewrite lookup_insert_ne by done.
  destruct (c !! "num_turns") as [nt|]; [|done].
  destruct (py_range nt) as [rounds|e]; [|done].
  by rewrite (for_each_ext _ _ _ Hround).
Qed.

Lemma seq_split (i n : nat) :
  i < n → seq 0 n = seq 0 i ++ i :: seq (S i) (n - S i).
Proof.
  intros Hi. replace n with (i + S (n - S i)) at 1 by lia.
  by rewrite seq_app.
Qed.

(** C6, as the code has it: when the first [i] samples of a batch, of no
    more samples than the progress bar can count (up to [sys.maxsize]),
    return and the next one raises, [run_samples] raises the same exception there
    and then: it returns no list of results, the transcripts of the samples
    before are not handed out, and no later sample is run, the state being
    the one the failing sample left. *)
Theorem failing_sample_ends_batch c s i results st st1 e st2 :
  default (PInt 1) (c !! "num_samples") = PInt s →
  (s ≤ maxsize)%Z →
  (0 ≤ i < s)%Z →
  run_samples (<["num_samples" := PInt i]> c) st = (Ok results, st1) →
  _run_conversation c st1 = (Raise e, st2) →
  run_samples c st = (Raise e, st2).
Proof.
  intros Hs Hmax Hi Hpre Hfail. rewrite (run_samples_eq _ _ _ Hs Hmax).
  apply (run_samples_ok_inv _ i) in Hpre; [|by rewrite lookup_insert_eq].
  rewrite (seq_split (Z.to_nat i) (Z.to_nat s)) by lia.
  rewrite fmap_app, fmap_cons.
  eapply for_each_raise_at.
  - rewrite <- Hpre. apply for_each_ext. intros _ v st0.
    unfold mbind, M_bind. by rewrite run_conversation_ignores_num_samples.
  - by apply bind_raise.
Qed.
End Batch.

(** C6, as the specification words it, fails: of three samples the second
    fails for good, and the batch ends there with its exception; the third
    sample is never run and its answer is still waiting. *)
Lemma one_failure_ends_the_batch :
  let script := [reply "a"; Raise (ModelCallError InvalidRequest); reply "c"] in
  (run_samples batch_config (start script)).1
    = Raise (ModelCallError InvalidRequest) ∧
  world (run_samples batch_config (start script)).2 = [reply "c"] ∧
  length (calls (run_samples batch_config (start script)).2) = 2 ∧
  ¬ ∃ results, (run_samples batch_config (start script)).1 = Ok results.
Proof.
  split; [by vm_compute|]. split; [by vm_compute|]. split; [by vm_compute|].
  intros [results Hr]. by vm_compute in Hr.
Qed.

Lemma failing_sample_ends_batch_witness :
  ∃ st2,
    run_samples batch_config
      (start [reply "a"; Raise (ModelCallError InvalidRequest); reply "c"])
    = (Raise (ModelCallError InvalidRequest), st2).
Proof.
  eexists.
  eapply (failing_sample_ends_batch batch_config 3 1).
  - reflexivity.
  - unfold maxsize. lia.
  - lia.
  - vm_compute. reflexivity.
  - vm_compute. reflexivity.
Defined.

Section Failure.
Context {World : Type} `{!ModelClient World}.
Implicit Types (st : State World) (l : Locals) (c : Config).

(** A turn that raises ends the conversation, with its exception and in
    its state. *)
Lemma run_conversation_raise_at c n avs pre a post l1 st st1 e st2 :
  c !! "num_turns" = Some (PInt (Z.of_nat n)) →
  c !! "agents" = Some (PList avs) →
  schedule n avs = pre ++ a :: post →
  for_each pre (turn c) (first_locals st) (first_state st) = (Ok l1, st1) →
  turn c a l1 st1 = (Raise e, st2) →
  _run_conversation c st = (Raise e, st2).
Proof.
  intros Hn Ha Hs Hpre Hturn. unfold _run_conversation.
  apply bind_raise. rewrite (conversation_eq _ _ _ _ Hn Ha), Hs.
  by eapply for_each_raise_at.
Qed.

(** C7, as the code has it: a call is tried once. When the turns before
    it have returned and the call of a turn raises, whatever the kind of the
    failure, the conversation raises the same exception at once: the
    failed call is the last one on record, the client is left as that one
    call left it, and no transcript is returned. *)
Theorem failed_call_is_not_retried
    c n avs pre d post l1 st st1 m sp h e w :
  c !! "num_turns" = Some (PInt (Z.of_nat n)) →
  c !! "agents" = Some (PList avs) →
  c !! "model_name" = Some m →
  schedule n avs = pre ++ PDict d :: post →
  for_each pre (turn c) (first_locals st) (first_state st) = (Ok l1, st1) →
  d !! "system_prompt" = Some sp →
  heap st1 !! conversation_history l1 = Some h →
  let q := {| Request.model := m; Request.max_tokens := 1000;
              Request.system := sp;
              Request.messages := h ++ [user (current_message l1)] |} in
  create q (world st1) = (Raise e, w) →
  ∃ st2,
    _run_conversation c st = (Raise e, st2) ∧
    world st2 = w ∧
    calls st2 = calls st1 ++ [(q, Raise e)].
Proof.
  intros Hn Ha Hm Hs Hpre Hsp Hh q Hcreate.
  pose proof (turn_eq _ _ _ _ _ _ _ Hm Hsp Hh) as Hturn. cbv zeta in Hturn.
  fold q in Hturn. rewrite Hcreate in Hturn. cbn [fst snd] in Hturn.
  eexists. split; [|split].
  - eapply run_conversation_raise_at; eauto.
  - done.
  - done.
Qed.
End Failure.

(** C7, as the specification words it, fails: the model is rate limited
    once and would answer the next time, yet the conversation ends with the
    rate limit after that one call, the answer never asked for. *)
Lemma rate_limit_is_final :
  let script := [Raise (ModelCallError RateLimited); reply "a"] in
  (_run_conversation duo_config (start script)).1
    = Raise (ModelCallError RateLimited) ∧
  world (_run_conversation duo_config (start script)).2 = [reply "a"] ∧
  length (calls (_run_conversation duo_config (start script)).2) = 1.
Proof. split; [by vm_compute|]. split; by vm_compute. Qed.

Lemma failed_call_is_not_retried_witness :
  ∃ st2,
    _run_conversation duo_config
      (start [reply "a"; Raise (ModelCallError Timeout); reply "b"])
    = (Raise (ModelCallError Timeout), st2) ∧
    world st2 = [reply "b"].
Proof.
  destruct (failed_call_is_not_retried duo_config 2
              [agent_dict alice; agent_dict bob] [agent_dict alice]
              {[ "name" := PStr "B"; "system_prompt" := PStr "You are B." ]}
              [agent_dict alice; agent_dict bob]
              {| messages := [entry_of alice "a"]; conversation_history := 0;
                 current_message := "a" |}
              (start [reply "a"; Raise (ModelCallError Timeout); reply "b"])
              {| world := [Raise (ModelCallError Timeout); reply "b"];
                 calls := [(request_of (PStr "some-model") alice
                              [user seed_greeting], reply "a")];
                 heap := [[user seed_greeting; assistant "a"];
                          [user seed_greeting]] |}
              (PStr "some-model") (PStr "You are B.")
              [user seed_greeting; assistant "a"]
              (ModelCallError Timeout) [reply "b"])
    as (st2 & Hrun & Hw & _).
  - reflexivity.
  - reflexivity.
  - reflexivity.
  - reflexivity.
  - vm_compute. reflexivity.
  - reflexivity.
  - reflexivity.
  - reflexivity.
  - exists st2. split; [exact Hrun | exact Hw].
Defined.

Section Defaults.
Context {World : Type} `{!ModelClient World}.
Implicit Types (st : State World) (l : Locals) (c : Config).

(** Without a number of samples there is one sample. *)
Lemma run_samples_default c st :
  c !! "num_samples" = None →
  run_samples c st = (result ← _run_conversation c; mret [result]) st.
Proof.
  intros Hnone. rewrite (run_samples_eq c 1); [|by rewrite Hnone|by unfold maxsize].
  change (Z.of_nat <$> seq 0 (Z.to_nat 1)) with [0%Z].
  unfold lift, mbind, M_bind, mret, M_ret. simpl.
  unfold mbind, M_bind, mret, M_ret.
  by destruct (_run_conversation c st) as [[msgs|e] st'].
Qed.

(** C10, as the code has it: a configuration without [num_samples] is not
    turned down, one sample is run, and when it returns the result is the
    list of its transcript alone. Nothing stands in for [num_turns]: without
    it that sample raises [KeyError]. Nothing stands in for the roster
    either, but it is looked up once a round: without it the sample raises
    [KeyError] when there is a round to play, and returns the empty
    transcript when there is none. *)
Theorem num_samples_defaults_to_one c st :
  c !! "num_samples" = None →
  (∀ msgs st', _run_conversation c st = (Ok msgs, st') →
     run_samples c st = (Ok [msgs], st')) ∧
  (∀ e st', _run_conversation c st = (Raise e, st') →
     run_samples c st = (Raise e, st')) ∧
  (c !! "num_turns" = None →
     run_samples c st = (Raise (KeyError "num_turns"), first_state st)) ∧
  (∀ z, c !! "agents" = None → c !! "num_turns" = Some (PInt z) → (0 < z)%Z →
     run_samples c st = (Raise (KeyError "agents"), first_state st)) ∧
  (∀ z, c !! "agents" = None → c !! "num_turns" = Some (PInt z) → (z ≤ 0)%Z →
     run_samples c st = (Ok [[]], first_state st)).
Proof.
  intros Hnone. rewrite (run_samples_default _ _ Hnone).
  assert (Hone : ∀ r st',
            _run_conversation c st = (r, st') →
            (result ← _run_conversation c; mret [result]) st
            = (match r with Ok msgs => Ok [msgs] | Raise e => Raise e end, st')).
  { intros r st' Hr. unfold mbind, M_bind. rewrite Hr. by destruct r. }
  split; [intros msgs st' Hr; apply (Hone _ _ Hr)|].
  split; [intros e st' Hr; apply (Hone _ _ Hr)|].
  split; [|split].
  - intros Hn. apply (Hone (Raise _)).
    unfold _run_conversation, conversation, new_list, lift, getitem.
    unfold mbind, M_bind. by rewrite Hn.
  - intros z Ha Hn Hz. apply (Hone (Raise _)).
    unfold _run_conversation, conversation, new_list, lift, getitem.
    unfold mbind, M_bind. rewrite Hn. simpl.
    destruct (Z.to_nat z) as [|k] eqn:Hk; [lia|]. simpl.
    unfold round, getitem, lift, mbind, M_bind. by rewrite Ha.
  - intros z Ha Hn Hz. apply (Hone (Ok [])).
    unfold _run_conversation, conversation, new_list, lift, getitem.
    unfold mbind, M_bind. rewrite Hn. simpl.
    by replace (Z.to_nat z) with 0 by lia.
Qed.
End Defaults.

(** C10, as the specification words it, fails in its last part: a
    configuration with neither a roster nor a number of samples, and no
    round to play, runs its one sample and returns. *)
Lemma missing_roster_can_pass :
  rosterless_config !! "agents" = None ∧
  rosterless_config !! "num_samples" = None ∧
  (run_samples rosterless_config (start [])).1 = Ok [[]].
Proof. split; [done|]. split; [done|]. by vm_compute. Qed.

Lemma num_samples_defaults_to_one_witness :
  ∃ msgs st',
    run_samples duo_config (start [reply "one"; reply "two"])
      = (Ok [msgs], st').
Proof.
  destruct (_run_conversation duo_config (start [reply "one"; reply "two"]))
    as [[msgs|e] st'] eqn:Hrun; [|by vm_compute in Hrun].
  destruct (num_samples_defaults_to_one duo_config
              (start [reply "one"; reply "two"]) eq_refl) as [Hone _].
  exists msgs, st'. exact (Hone _ _ Hrun).
Defined.

(** * What a malformed configuration does *)

Section Malformed.
Context {World : Type} `{!ModelClient World}.
Implicit Types (st : State World) (l : Locals) (c : Config).

(** The model name is looked up first in a turn: without it, a
    conversation with a round to play and somebody on the roster raises
    [KeyError] in its first turn, having made its empty history and
    nothing else; the model is not called. *)
Theorem missing_model_name c z agents a rest st :
  c !! "model_name" = None →
  c !! "num_turns" = Some (PInt z) → (0 < z)%Z →
  c !! "agents" = Some agents →
  py_iter agents = Ok (a :: rest) →
  _run_conversation c st = (Raise (KeyError "model_name"), first_state st).
Proof.
  intros Hm Hn Hz Ha Hit. apply bind_raise.
  unfold conversation, new_list, lift, getitem, mbind at 1 2 3, M_bind at 1 2 3.
  rewrite Hn. simpl.
  destruct (Z.to_nat z) as [|k] eqn:Hk; [lia|]. simpl.
  unfold round, lift, getitem, mbind, M_bind. rewrite Ha, Hit. simpl.
  unfold turn, lift, getitem, mbind, M_bind. by rewrite Hm.
Qed.

(** A roster that cannot be iterated (a number, a boolean, nothing) makes
    the first round raise [TypeError] before any turn. *)
Theorem roster_not_iterable c z agents e st :
  c !! "num_turns" = Some (PInt z) → (0 < z)%Z →
  c !! "agents" = Some agents →
  py_iter agents = Raise e →
  e = TypeError ∧
  _run_conversation c st = (Raise TypeError, first_state st).
Proof.
  intros Hn Hz Ha Hit.
  assert (e = TypeError) as -> by (destruct agents; simpl in Hit; congruence).
  split; [done|]. apply bind_raise.
  unfold conversation, new_list, lift, getitem, mbind at 1 2 3, M_bind at 1 2 3.
  rewrite Hn. simpl.
  destruct (Z.to_nat z) as [|k] eqn:Hk; [lia|]. simpl.
  unfold round, lift, getitem, mbind, M_bind. by rewrite Ha, Hit.
Qed.

(** An item of the roster that is not a dict (a bare name, say) ends the
    conversation with [TypeError] when its turn comes, in the state the
    turns before it left: that turn calls nobody. *)
Theorem malformed_agent c n avs pre a post l1 st st1 :
  c !! "num_turns" = Some (PInt (Z.of_nat n)) →
  c !! "agents" = Some (PList avs) →
  is_Some (c !! "model_name") →
  schedule n avs = pre ++ a :: post →
  for_each pre (turn c) (first_locals st) (first_state st) = (Ok l1, st1) →
  (∀ d, a ≠ PDict d) →
  _run_conversation c st = (Raise TypeError, st1).
Proof.
  intros Hn Ha [m Hm] Hs Hpre Hnd.
  eapply run_conversation_raise_at; eauto.
  unfold turn, lift, getitem, mbind, M_bind. rewrite Hm.
  destruct a as [| | | | |d]; try done. by destruct (Hnd d).
Qed.

(** An agent without a system prompt ends the conversation with
    [KeyError] when its turn comes, in the state the turns before it left:
    that turn calls nobody. *)
Theorem missing_system_prompt c n avs pre d post l1 st st1 :
  c !! "num_turns" = Some (PInt (Z.of_nat n)) →
  c !! "agents" = Some (PList avs) →
  is_Some (c !! "model_name") →
  schedule n avs = pre ++ PDict d :: post →
  for_each pre (turn c) (first_locals st) (first_state st) = (Ok l1, st1) →
  d !! "system_prompt" = None →
  _run_conversation c st = (Raise (KeyError "system_prompt"), st1).
Proof.
  intros Hn Ha [m Hm] Hs Hpre Hsp.
  eapply run_conversation_raise_at; eauto.
  unfold turn, lift, subscript, getitem, mbind, M_bind. by rewrite Hm, Hsp.
Qed.

(** The name of an agent is looked up after the model has answered: an
    agent without a name ends the conversation with [KeyError], but its
    call has been issued and is on record, the client has moved on, and the
    history is as the turns before left it: the answer is lost. *)
Theorem missing_name_costs_a_call
    c n avs pre d post l1 st st1 m sp h r w t :
  c !! "num_turns" = Some (PInt (Z.of_nat n)) →
  c !! "agents" = Some (PList avs) →
  c !! "model_name" = Some m →
  schedule n avs = pre ++ PDict d :: post →
  for_each pre (turn c) (first_locals st) (first_state st) = (Ok l1, st1) →
  d !! "system_prompt" = Some sp →
  d !! "name" = None →
  heap st1 !! conversation_history l1 = Some h →
  let q := {| Request.model := m; Request.max_tokens := 1000;
              Request.system := sp;
              Request.messages := h ++ [user (current_message l1)] |} in
  create q (world st1) = (Ok r, w) →
  first_text r = Ok t →
  ∃ st2,
    _run_conversation c st = (Raise (KeyError "name"), st2) ∧
    world st2 = w ∧
    calls st2 = calls st1 ++ [(q, Ok r)] ∧
    heap st2 !! conversation_history l1 = Some h.
Proof.
  intros Hn Ha Hm Hs Hpre Hsp Hnm Hh q Hcreate Ht.
  pose proof (turn_eq _ _ _ _ _ _ _ Hm Hsp Hh) as Hturn. cbv zeta in Hturn.
  fold q in Hturn. rewrite Hcreate in Hturn. cbn [fst snd] in Hturn.
  rewrite Ht, Hnm in Hturn.
  eexists. split; [eapply run_conversation_raise_at; eauto|].
  split; [done|]. split; [done|]. cbn [heap].
  rewrite lookup_app_l; [done | by eapply lookup_lt_Some].
Qed.

(** An answer without content, or whose first block is not a text, ends
    the conversation with [IndexError] or [AttributeError]: the call is on
    record and the history is as the turns before left it. *)
Theorem malformed_answer c n avs pre d post l1 st st1 m sp h r w e :
  c !! "num_turns" = Some (PInt (Z.of_nat n)) →
  c !! "agents" = Some (PList avs) →
  c !! "model_name" = Some m →
  schedule n avs = pre ++ PDict d :: post →
  for_each pre (turn c) (first_locals st) (first_state st) = (Ok l1, st1) →
  d !! "system_prompt" = Some sp →
  heap st1 !! conversation_history l1 = Some h →
  let q := {| Request.model := m; Request.max_tokens := 1000;
              Request.system := sp;
              Request.messages := h ++ [user (current_message l1)] |} in
  create q (world st1) = (Ok r, w) →
  first_text r = Raise e →
  (e = IndexError ∧ response_content r = [] ∨
   e = AttributeError ∧ ∃ rest, response_content r = OtherBlock :: rest) ∧
  ∃ st2,
    _run_conversation c st = (Raise e, st2) ∧
    world st2 = w ∧
    calls st2 = calls st1 ++ [(q, Ok r)] ∧
    heap st2 !! conversation_history l1 = Some h.
Proof.
  intros Hn Ha Hm Hs Hpre Hsp Hh q Hcreate Ht. split.
  { unfold first_text in Ht.
    destruct (response_content r) as [|[text|] rest]; simplify_eq; eauto. }
  pose proof (turn_eq _ _ _ _ _ _ _ Hm Hsp Hh) as Hturn. cbv zeta in Hturn.
  fold q in Hturn. rewrite Hcreate in Hturn. cbn [fst snd] in Hturn.
  rewrite Ht in Hturn.
  eexists. split; [eapply run_conversation_raise_at; eauto|].
  split; [done|]. split; [done|]. cbn [heap].
  rewrite lookup_app_l; [done | by eapply lookup_lt_Some].
Qed.
End Malformed.

Lemma missing_model_name_witness :
  _run_conversation
    {[ "num_turns" := PInt 1; "agents" := PList [agent_dict alice] ]}
    (start [reply "a"])
  = (Raise (KeyError "model_name"), first_state (start [reply "a"])).
Proof.
  apply (missing_model_name _ 1 (PList [agent_dict alice]) (agent_dict alice) []).
  - reflexivity.
  - reflexivity.
  - lia.
  - reflexivity.
  - reflexivity.
Defined.

Lemma roster_not_iterable_witness :
  _run_conversation (config_of PNone) (start [reply "a"])
  = (Raise TypeError, first_state (start [reply "a"])).
Proof.
  apply (roster_not_iterable (config_of PNone) 1 PNone TypeError).
  - reflexivity.
  - lia.
  - reflexivity.
  - reflexivity.
Defined.

Lemma malformed_agent_witness :
  ∃ st1,
    _run_conversation (config_of (PList [agent_dict alice; PStr "B"]))
      (start [reply "a"; reply "b"])
    = (Raise TypeError, st1) ∧
    world st1 = [reply "b"] ∧ length (calls st1) = 1.
Proof.
  eexists. split.
  - eapply (malformed_agent _ 1 [agent_dict alice; PStr "B"]
              [agent_dict alice] (PStr "B") []).
    + reflexivity.
    + reflexivity.
    + eexists. reflexivity.
    + reflexivity.
    + vm_compute. reflexivity.
    + intros d. discriminate.
  - split; reflexivity.
Defined.

Lemma missing_system_prompt_witness :
  _run_conversation (config_of (PList [PDict promptless])) (start [reply "a"])
  = (Raise (KeyError "system_prompt"), first_state (start [reply "a"])).
Proof.
  eapply (missing_system_prompt _ 1 [PDict promptless] [] promptless []).
  - reflexivity.
  - reflexivity.
  - eexists. reflexivity.
  - reflexivity.
  - reflexivity.
  - reflexivity.
Defined.

Lemma missing_name_costs_a_call_witness :
  ∃ st2,
    _run_conversation (config_of (PList [PDict nameless]))
      (start [reply "a"; reply "b"])
    = (Raise (KeyError "name"), st2) ∧
    world st2 = [reply "b"] ∧ length (calls st2) = 1.
Proof.
  destruct (missing_name_costs_a_call
              (config_of (PList [PDict nameless])) 1 [PDict nameless] []
              nameless [] (first_locals (start [reply "a"; reply "b"]))
              (start [reply "a"; reply "b"])
              (first_state (start [reply "a"; reply "b"]))
              (PStr "some-model") (PStr "You are nobody.") []
              {| response_content := [TextBlock "a"] |} [reply "b"] "a")
    as (st2 & Hrun & Hw & Hc & _); try reflexivity.
  exists st2. split; [exact Hrun|]. split; [exact Hw|].
  rewrite Hc. reflexivity.
Defined.

Lemma malformed_answer_witness :
  ∃ st2,
    _run_conversation (config_of (PList [agent_dict alice]))
      (start [other_block; reply "b"])
    = (Raise AttributeError, st2) ∧
    world st2 = [reply "b"] ∧ length (calls st2) = 1.
Proof.
  destruct (malformed_answer
              (config_of (PList [agent_dict alice])) 1 [agent_dict alice] []
              {[ "name" := PStr "A"; "system_prompt" := PStr "You are A." ]} []
              (first_locals (start [other_block; reply "b"]))
              (start [other_block; reply "b"])
              (first_state (start [other_block; reply "b"]))
              (PStr "some-model") (PStr "You are A.") []
              {| response_content := [OtherBlock; TextBlock "late"] |}
              [reply "b"] AttributeError)
    as (_ & st2 & Hrun & Hw & Hc & _); try reflexivity.
  exists st2. split; [exact Hrun|]. split; [exact Hw|].
  rewrite Hc. reflexivity.
Defined.

(** * What holds of every run *)

Section Invariants.
Context {World : Type} `{!ModelClient World}.
Implicit Types (st : State World) (l : Locals) (c : Config).

(** A turn issues at most one call, with the literal ceiling and the model
    name of the configuration, and touches the client in no other way. *)
Lemma turn_step c a l st :
  (world (turn c a l st).2 = world st ∧ calls (turn c a l st).2 = calls st) ∨
  ∃ q, c !! "model_name" = Some (Request.model q) ∧
       Request.max_tokens q = 1000%Z ∧
       world (turn c a l st).2 = (create q (world st)).2 ∧
       calls (turn c a l st).2 = calls st ++ [(q, (create q (world st)).1)].
Proof.
  unfold turn, request_context, list_add, load, messages_create, advance,
    list_extend, lift, subscript, getitem, mbind, M_bind, mret, M_ret.
  destruct (c !! "model_name") as [m|] eqn:Hm; [|by left].
  destruct a as [| | | | |d]; try by left.
  destruct (d !! "system_prompt") as [sp|]; [|by left].
  cbn [world calls heap]. right.
  match goal with |- context [create ?q (world st)] => exists q end.
  split; [done|]. split; [done|].
  destruct (create _ (world st)) as [[r|e] w]; [|done]. cbn [fst snd].
  destruct (first_text r) as [t|e]; [|done].
  by destruct (d !! "name").
Qed.

Lemma bind_preserves {A B} (J : State World → Prop)
    (m : M World A) (f : A → M World B) st :
  J (m st).2 → (∀ a st1, J st1 → J (f a st1).2) → J ((m ≫= f) st).2.
Proof.
  intros Hm Hf. unfold mbind, M_bind.
  destruct (m st) as [[a|e] st1]; [by apply Hf | done].
Qed.

(** What holds of the client and of the record of the calls before a
    batch, and is kept by every call that carries the model name of the
    configuration and the literal ceiling, holds after, whether the batch
    returns or raises. *)
Lemma run_samples_invariant (I : World → list Call → Prop) c :
  (∀ w cs q,
     c !! "model_name" = Some (Request.model q) →
     Request.max_tokens q = 1000%Z →
     I w cs → I (create q w).2 (cs ++ [(q, (create q w).1)])) →
  ∀ st, I (world st) (calls st) →
        I (world (run_samples c st).2) (calls (run_samples c st).2).
Proof.
  intros Hstep. set (J := λ st, I (world st) (calls st)).
  assert (Hturn : ∀ a l st, J st → J (turn c a l st).2).
  { intros a l st HJ. unfold J in *.
    destruct (turn_step c a l st) as [[-> ->] | (q & Hm & Hq & -> & ->)];
      [done | by apply Hstep]. }
  assert (Hround : ∀ (r : Z) l st, J st → J (round c l st).2).
  { intros _ l st HJ. unfold round.
    apply bind_preserves; [done|]. intros agents st1 HJ1.
    apply bind_preserves; [done|]. intros roster st2 HJ2.
    by apply for_each_preserves. }
  assert (Hrun : ∀ st, J st → J (_run_conversation c st).2).
  { intros st HJ. unfold _run_conversation.
    apply bind_preserves; [|done]. unfold conversation.
    apply bind_preserves; [done|]. intros h st1 HJ1.
    apply bind_preserves; [done|]. intros nt st2 HJ2.
    apply bind_preserves; [done|]. intros rounds st3 HJ3.
    by apply for_each_preserves. }
  intros st HI. change (J (run_samples c st).2). unfold run_samples.
  apply bind_preserves; [done|]. intros indices st0 HJ0.
  apply bind_preserves; [done|]. intros samples st1 HJ1.
  apply for_each_preserves; [|done]. intros _ results st2 HJ2.
  apply bind_preserves; [by apply Hrun | done].
Qed.

(** Every call of a batch, whatever the configuration and whether the
    batch returns or raises, carries the literal 1000 as [max_tokens] and
    the model name of the configuration. *)
Theorem every_call_has_the_literal_ceiling c st q o :
  (q, o) ∈ calls_since st (run_samples c st).2 →
  Request.max_tokens q = 1000%Z ∧
  c !! "model_name" = Some (Request.model q).
Proof.
  pose proof (run_samples_invariant
    (λ _ cs, ∃ new, cs = calls st ++ new ∧
       Forall (λ call, Request.max_tokens call.1 = 1000%Z ∧
                       c !! "model_name" = Some (Request.model call.1)) new)
    c) as Hinv.
  destruct (Hinv) with (st := st) as (new & Hnew & Hall).
  - intros w cs q0 Hm Hq (new & -> & Hall). exists (new ++ [(q0, (create q0 w).1)]).
    split; [by rewrite app_assoc|]. apply Forall_app. split; [done|].
    by repeat constructor.
  - exists []. split; [by rewrite app_nil_r | constructor].
  - rewrite (calls_since_app _ _ _ Hnew). intros Hin.
    by apply (proj1 (Forall_forall _ _) Hall (q, o)).
Qed.

(** Without a model name no call is ever issued, whatever else the
    configuration holds. *)
Theorem no_model_name_no_call c st :
  c !! "model_name" = None →
  calls (run_samples c st).2 = calls st ∧
  world (run_samples c st).2 = world st.
Proof.
  intros Hnone.
  pose proof (run_samples_invariant
    (λ w cs, cs = calls st ∧ w = world st) c) as Hinv.
  destruct (Hinv) with (st := st) as [Hc Hw]; [|done|done].
  intros w cs q Hm. congruence.
Qed.
End Invariants.

Lemma no_model_name_no_call_witness :
  calls (run_samples
           {[ "num_turns" := PInt 1; "agents" := PList [agent_dict alice] ]}
           (start [reply "a"])).2 = [] ∧
  world (run_samples
           {[ "num_turns" := PInt 1; "agents" := PList [agent_dict alice] ]}
           (start [reply "a"])).2 = [reply "a"].
Proof.
  apply (no_model_name_no_call _ (start [reply "a"])). reflexivity.
Defined.

Lemma every_call_has_the_literal_ceiling_witness :
  Request.max_tokens (request_of (PStr "some-model") alice [user seed_greeting])
    = 1000%Z ∧
  ceiling_config !! "model_name"
    = Some (Request.model
              (request_of (PStr "some-model") alice [user seed_greeting])).
Proof.
  apply (every_call_has_the_literal_ceiling ceiling_config (start [reply "a"])
           _ (reply "a")).
  vm_compute. apply list_elem_of_here.
Defined.

(** * The batch *)

Section BatchTrace.
Context {World : Type} `{!ModelClient World}.
Implicit Types (st : State World) (l : Locals) (c : Config).

Lemma run_conversation_traced c n roster st msgs st' :
  valid_config c n roster →
  _run_conversation c st = (Ok msgs, st') →
  ∃ cs, calls st' = calls st ++ cs ∧ traced c n roster msgs cs.
Proof.
  intros Hv Hrun. apply run_conversation_inv in Hrun as (l & Hrun & ->).
  destruct (conversation_ok _ _ _ _ _ _ Hv Hrun)
    as (m & ts & rs & Hm & Hrs & Hlen & Hmsg & _ & _ & _ & Hcalls).
  eexists. split; [exact Hcalls|]. exists m, ts, rs.
  by rewrite schedule_length.
Qed.

Lemma traced_lengths c n roster msgs cs :
  traced c n roster msgs cs →
  length msgs = n * length roster ∧ length cs = n * length roster.
Proof.
  intros (m & ts & rs & _ & Hrs & Hlen & -> & ->).
  pose proof (Forall2_length _ _ _ Hrs) as Hlrs.
  rewrite !length_zip_with, length_fmap, contexts_length.
  rewrite schedule_length in *. lia.
Qed.

Lemma traced_lookup c n roster msgs cs i e :
  traced c n roster msgs cs →
  msgs !! i = Some e →
  ∃ q r, cs !! i = Some (q, Ok r) ∧ first_text r = Ok (t_content e).
Proof.
  intros (m & ts & rs & _ & Hrs & Hlen & -> & ->) He.
  apply lookup_zip_with_Some in He as (p & t & -> & Hp & Ht).
  destruct (trace_lookup m _ _ _ [] seed_greeting _ _ Hrs Hlen Hp)
    as (t' & r & context & Ht' & _ & Hrt & _ & _ & Hcall).
  simplify_eq. eauto.
Qed.

Lemma traced_first c (n : nat) (roster : list AgentProfile) msgs cs :
  (1 ≤ n)%nat → roster ≠ [] →
  traced c n roster msgs cs →
  ∃ q o, cs !! 0 = Some (q, o) ∧ Request.messages q = [user seed_greeting].
Proof.
  intros Hn Hne (m & ts & rs & _ & Hrs & Hlen & -> & ->).
  destruct roster as [|p roster]; [done|]. destruct n as [|n]; [lia|].
  assert (Hs : schedule (S n) (p :: roster) !! 0 = Some p) by done.
  destruct (trace_lookup m _ _ _ [] seed_greeting _ _ Hrs Hlen Hs)
    as (t & r & context & Ht & _ & _ & Hc & _ & Hcall).
  exists (request_of m p context), (Ok r). split; [done|].
  destruct ts as [|t0 ts]; [done|]. simpl in Hc. by simplify_eq.
Qed.

(** The samples of a batch that returns, one after the other. *)
Lemma samples_traced c n roster (samples : list Z) :
  valid_config c n roster →
  ∀ acc st results st',
    for_each samples
      (λ _ results, result ← _run_conversation c; mret (results ++ [result]))
      acc st = (Ok results, st') →
    ∃ runs : list (list TranscriptEntry * list Call),
      results = acc ++ runs.*1 ∧
      calls st' = calls st ++ mjoin runs.*2 ∧
      length runs = length samples ∧
      Forall (λ run, traced c n roster run.1 run.2) runs.
Proof.
  intros Hv. induction samples as [|x samples IH]; intros acc st results st' H.
  - simpl in H. unfold mret, M_ret in H. simplify_eq. exists [].
    simpl. by rewrite !app_nil_r.
  - simpl in H. apply bind_ok_inv in H as (acc1 & st1 & Hbody & Hrest).
    apply bind_ok_inv in Hbody as (msgs & st0 & Hrun & Hret).
    unfold mret, M_ret in Hret. simplify_eq.
    destruct (run_conversation_traced _ _ _ _ _ _ Hv Hrun) as (cs & Hcs & Htr).
    destruct (IH _ _ _ _ Hrest) as (runs & -> & Hcalls & Hlen & Hall).
    exists ((msgs, cs) :: runs). simpl.
    rewrite <- app_assoc, Hcalls, Hcs, <- app_assoc.
    repeat split; try done; [by rewrite Hlen | by constructor].
Qed.

Lemma run_samples_traced c n roster s st results st' :
  valid_config c n roster →
  default (PInt 1) (c !! "num_samples") = PInt s →
  run_samples c st = (Ok results, st') →
  ∃ runs : list (list TranscriptEntry * list Call),
    results = runs.*1 ∧
    calls_since st st' = mjoin runs.*2 ∧
    length runs = Z.to_nat s ∧
    Forall (λ run, traced c n roster run.1 run.2) runs.
Proof.
  intros Hv Hs Hrun. apply (run_samples_ok_inv _ _ _ _ _ Hs) in Hrun.
  destruct (samples_traced _ _ _ _ Hv _ _ _ _ Hrun)
    as (runs & -> & Hcalls & Hlen & Hall).
  exists runs. rewrite length_fmap, length_seq in Hlen.
  repeat split; try done. by apply calls_since_app.
Qed.

Lemma length_mjoin_uniform {A} (xss : list (list A)) k :
  Forall (λ xs, length xs = k) xss → length (mjoin xss) = length xss * k.
Proof.
  induction 1 as [|xs xss Hxs _ IH]; [done|].
  simpl. rewrite length_app, IH, Hxs. lia.
Qed.

Lemma lookup_mjoin_uniform {A} (xss : list (list A)) k j i xs :
  Forall (λ xs, length xs = k) xss →
  xss !! j = Some xs → i < k →
  mjoin xss !! (j * k + i) = xs !! i.
Proof.
  intros Hall. revert j. induction Hall as [|ys xss Hys _ IH]; intros j Hj Hi.
  - done.
  - destruct j as [|j]; simpl in *.
    + simplify_eq. rewrite lookup_app_l; [done | lia].
    + rewrite lookup_app_r by lia.
      replace (k + j * k + i - length ys) with (j * k + i) by lia. by apply IH.
Qed.

(** A batch that returns, for a valid configuration, gives as many
    transcripts as there are samples, each of [num_turns * len(agents)]
    entries, and has made that many calls for each of them. *)
Theorem batch_counts c n roster s st results st' :
  valid_config c n roster →
  default (PInt 1) (c !! "num_samples") = PInt s →
  run_samples c st = (Ok results, st') →
  length results = Z.to_nat s ∧
  Forall (λ msgs, length msgs = n * length roster) results ∧
  length (calls_since st st') = Z.to_nat s * (n * length roster).
Proof.
  intros Hv Hs Hrun.
  destruct (run_samples_traced _ _ _ _ _ _ _ Hv Hs Hrun)
    as (runs & -> & -> & Hlen & Hall).
  rewrite length_fmap. split; [done|]. split.
  - apply Forall_fmap. eapply Forall_impl; [exact Hall|].
    intros [msgs cs] Htr. by apply traced_lengths in Htr as [? _].
  - rewrite (length_mjoin_uniform _ (n * length roster)).
    + by rewrite length_fmap, Hlen.
    + apply Forall_fmap. eapply Forall_impl; [exact Hall|].
      intros [msgs cs] Htr. by apply traced_lengths in Htr as [_ ?].
Qed.

(** The samples of a batch share no history: in a batch that returns, the
    first call of every sample carries the seed greeting and nothing of the
    samples before. *)
Theorem every_sample_starts_afresh c n roster s st results st' j :
  valid_config c n roster →
  default (PInt 1) (c !! "num_samples") = PInt s →
  run_samples c st = (Ok results, st') →
  j < Z.to_nat s →
  ∃ q o,
    calls_since st st' !! (j * (n * length roster)) = Some (q, o) ∧
    Request.messages q = [user seed_greeting].
Proof.
  intros Hv Hs Hrun Hj.
  destruct (run_samples_traced _ _ _ _ _ _ _ Hv Hs Hrun)
    as (runs & -> & -> & Hlen & Hall).
  destruct (lookup_lt_is_Some_2 runs j) as [[msgs cs] Hrun_j]; [lia|].
  pose proof (proj1 (Forall_lookup _ _) Hall _ _ Hrun_j) as Htr. simpl in Htr.
  destruct Hv as [_ [_ Hn] (avs & _ & _ & Hne) _].
  destruct (traced_first _ _ _ _ _ Hn Hne Htr) as (q & o & Hq & Hmsg).
  exists q, o. split; [|done].
  assert (Hpos : 0 < n * length roster).
  { destruct roster; [done|]. simpl. lia. }
  rewrite <- (Nat.add_0_r (j * _)).
  rewrite (lookup_mjoin_uniform _ (n * length roster) j 0 cs); [done| |..].
  - apply Forall_fmap. eapply Forall_impl; [exact Hall|].
    intros [msgs' cs'] Htr'. by apply traced_lengths in Htr' as [_ ?].
  - by rewrite list_lookup_fmap, Hrun_j.
  - done.
Qed.

(** The results of a batch come in the order the samples were run: entry
    [i] of transcript [j] holds the text of the answer to call
    [j * num_turns * len(agents) + i] of the batch. *)
Theorem results_in_running_order c n roster s st results st' j msgs i e :
  valid_config c n roster →
  default (PInt 1) (c !! "num_samples") = PInt s →
  run_samples c st = (Ok results, st') →
  results !! j = Some msgs →
  msgs !! i = Some e →
  ∃ q r,
    calls_since st st' !! (j * (n * length roster) + i) = Some (q, Ok r) ∧
    first_text r = Ok (t_content e).
Proof.
  intros Hv Hs Hrun Hj He.
  destruct (run_samples_traced _ _ _ _ _ _ _ Hv Hs Hrun)
    as (runs & -> & -> & Hlen & Hall).
  rewrite list_lookup_fmap in Hj.
  destruct (runs !! j) as [[msgs' cs]|] eqn:Hrun_j; [|done].
  simpl in Hj. simplify_eq.
  pose proof (proj1 (Forall_lookup _ _) Hall _ _ Hrun_j) as Htr. simpl in Htr.
  destruct (traced_lookup _ _ _ _ _ _ _ Htr He) as (q & r & Hq & Hr).
  exists q, r. split; [|done].
  rewrite (lookup_mjoin_uniform _ (n * length roster) j i cs); [done| |..].
  - apply Forall_fmap. eapply Forall_impl; [exact Hall|].
    intros [msgs' cs'] Htr'. by apply traced_lengths in Htr' as [_ ?].
  - by rewrite list_lookup_fmap, Hrun_j.
  - apply traced_lengths in Htr as [<- _]. by eapply lookup_lt_Some.
Qed.
End BatchTrace.

Lemma batch_config_valid : valid_config batch_config 1 [alice].
Proof.
  split.
  - by eexists.
  - split; [done | lia].
  - eexists. split; [done|]. split; [|done].
    repeat constructor; apply describes_agent_dict.
  - exists 3%Z. split; [done | lia].
Qed.

Lemma batch_counts_witness :
  ∃ results st',
    run_samples batch_config (start [reply "a"; reply "b"]) = (Ok results, st') ∧
    length results = 3 ∧
    length (calls_since (start [reply "a"; reply "b"]) st') = 3.
Proof.
  destruct (run_samples batch_config (start [reply "a"; reply "b"]))
    as [[results|e] st'] eqn:Hrun; [|by vm_compute in Hrun].
  destruct (batch_counts _ _ _ 3 _ _ _ batch_config_valid eq_refl Hrun)
    as (Hlen & _ & Hcalls).
  exists results, st'. split; [reflexivity|]. split; [exact Hlen | exact Hcalls].
Defined.

Lemma every_sample_starts_afresh_witness :
  ∃ results st' q o,
    run_samples batch_config (start [reply "a"; reply "b"]) = (Ok results, st') ∧
    calls_since (start [reply "a"; reply "b"]) st' !! 2 = Some (q, o) ∧
    Request.messages q = [user seed_greeting].
Proof.
  destruct (run_samples batch_config (start [reply "a"; reply "b"]))
    as [[results|e] st'] eqn:Hrun; [|by vm_compute in Hrun].
  destruct (every_sample_starts_afresh _ _ _ 3 _ _ _ 2
              batch_config_valid eq_refl Hrun)
    as (q & o & Hq & Hmsg); [vm_compute; lia|].
  exists results, st', q, o.
  split; [reflexivity|]. split; [exact Hq | exact Hmsg].
Defined.

Lemma results_in_running_order_witness :
  ∃ st' q r,
    run_samples batch_config (start [reply "a"; reply "b"; reply "c"])
    = (Ok [[entry_of alice "a"]; [entry_of alice "b"]; [entry_of alice "c"]],
       st') ∧
    calls_since (start [reply "a"; reply "b"; reply "c"]) st' !! 1
      = Some (q, Ok r) ∧
    first_text r = Ok "b".
Proof.
  assert (∃ st',
    run_samples batch_config (start [reply "a"; reply "b"; reply "c"])
    = (Ok [[entry_of alice "a"]; [entry_of alice "b"]; [entry_of alice "c"]],
       st')) as [st' Hrun] by (eexists; vm_compute; reflexivity).
  destruct (results_in_running_order _ _ _ 3 _ _ _ 1 [entry_of alice "b"] 0
              (entry_of alice "b") batch_config_valid eq_refl Hrun
              eq_refl eq_refl)
    as (q & r & Hq & Hr).
  exists st', q, r. split; [exact Hrun|]. split; [exact Hq | exact Hr].
Defined.

(** * The history and what was sent *)

Section History.
Context {World : Type} `{!ModelClient World}.
Implicit Types (st : State World) (l : Locals) (c : Config).

Lemma weave_lookup_assistant cm ts i t :
  ts !! i = Some t → weave cm ts !! (2 * i + 1) = Some (assistant t).
Proof.
  revert cm i. induction ts as [|t0 ts IH]; intros cm i Ht; [done|].
  destruct i as [|i]; simpl in Ht.
  - by simplify_eq.
  - replace (2 * S i + 1) with (S (S (2 * i + 1))) by lia. simpl. by apply IH.
Qed.

Lemma weave_lookup_user cm ts i t :
  ts !! i = Some t → S i < length ts →
  weave cm ts !! (2 * i + 2) = Some (user t).
Proof.
  revert cm i. induction ts as [|t0 ts IH]; intros cm i Ht Hlt; [done|].
  destruct i as [|i]; simpl in Ht, Hlt.
  - simplify_eq. by destruct ts; [simpl in Hlt; lia|].
  - replace (2 * S i + 2) with (S (S (2 * i + 2))) by lia. simpl.
    apply IH; [done | lia].
Qed.

Lemma contexts_take h cm ts j context :
  contexts h cm ts !! j = Some context →
  context = h ++ take (2 * j + 1) (weave cm ts).
Proof.
  revert h cm j. induction ts as [|t ts IH]; intros h cm j Hc; [done|].
  destruct j as [|j]; simpl in Hc.
  - by simplify_eq.
  - apply IH in Hc as ->.
    replace (2 * S j + 1) with (S (S (2 * j + 1))) by lia. simpl.
    by rewrite <- app_assoc.
Qed.

(** The history is the transcript told again with the roles of a
    dialogue: it opens with the seed greeting as the user's, the answer of
    turn [i] is its entry [2 i + 1], as the assistant's, and, unless it was
    the last answer, its entry [2 i + 2] once more, as the user's. *)
Theorem history_relabels_transcript c n roster st l st' :
  valid_config c n roster →
  conversation c st = (Ok l, st') →
  ∃ history,
    heap st' !! conversation_history l = Some history ∧
    history = weave seed_greeting (t_content <$> messages l) ∧
    history !! 0 = Some (user seed_greeting) ∧
    ∀ i e, messages l !! i = Some e →
      history !! (2 * i + 1) = Some (assistant (t_content e)) ∧
      (S i < length (messages l) →
       history !! (2 * i + 2) = Some (user (t_content e))).
Proof.
  intros Hv Hrun.
  destruct (conversation_ok _ _ _ _ _ _ Hv Hrun)
    as (m & ts & rs & _ & _ & Hlen & Hmsg & Hch & _ & Hheap & _).
  rewrite <- schedule_length in Hlen.
  pose proof (transcript_texts _ _ Hlen) as Htexts. rewrite <- Hmsg in Htexts.
  exists (weave seed_greeting ts). rewrite Hch, Htexts.
  split; [done|]. split; [done|]. split.
  - destruct Hv as [_ [_ Hn] (avs & _ & _ & Hne) _].
    destruct ts as [|t ts]; [|done]. rewrite schedule_length in Hlen.
    destruct roster; [done|]. simpl in Hlen. lia.
  - intros i e He.
    assert (Ht : ts !! i = Some (t_content e)).
    { by rewrite <- Htexts, list_lookup_fmap, He. }
    split; [by apply weave_lookup_assistant|].
    intros Hlt. apply weave_lookup_user; [done|].
    by rewrite <- Htexts, length_fmap.
Qed.

(** The history only grows at its end: the context of call [j] of a
    conversation that returns is the first [2 j + 1] entries of the history
    as it stands when the conversation is over. *)
Theorem context_is_history_prefix c n roster st l st' :
  valid_config c n roster →
  conversation c st = (Ok l, st') →
  ∃ history,
    heap st' !! conversation_history l = Some history ∧
    ∀ j q o, calls_since st st' !! j = Some (q, o) →
      Request.messages q = take (2 * j + 1) history.
Proof.
  intros Hv Hrun.
  destruct (conversation_ok _ _ _ _ _ _ Hv Hrun)
    as (m & ts & rs & _ & Hrs & Hlen & _ & Hch & _ & Hheap & Hcalls).
  rewrite <- schedule_length in Hlen.
  exists (weave seed_greeting ts). rewrite Hch. split; [done|].
  rewrite (calls_since_app _ _ _ Hcalls). intros j q o Hq.
  pose proof Hq as Hq0.
  apply lookup_zip_with_Some in Hq0 as (q0 & o0 & _ & Hreq & _).
  apply lookup_zip_with_Some in Hreq as (p & ctx0 & _ & Hp & _).
  destruct (trace_lookup m _ _ _ [] seed_greeting _ _ Hrs Hlen Hp)
    as (t & r & ctx & _ & _ & _ & Hctx & _ & Hcall).
  pose proof (eq_trans (eq_sym Hq) Hcall) as Heq. clear Hq Hcall.
  simplify_eq. simpl. by apply contexts_take in Hctx.
Qed.
End History.

Lemma history_relabels_transcript_witness :
  ∃ l st' history,
    conversation duo_config (start [reply "one"; reply "two"]) = (Ok l, st') ∧
    heap st' !! conversation_history l = Some history ∧
    history !! 0 = Some (user seed_greeting).
Proof.
  destruct (conversation duo_config (start [reply "one"; reply "two"]))
    as [[l|e] st'] eqn:Hrun; [|by vm_compute in Hrun].
  destruct (history_relabels_transcript _ _ _ _ _ _ duo_config_valid Hrun)
    as (h & Hh & _ & H0 & _).
  exists l, st', h. split; [reflexivity|]. split; [exact Hh | exact H0].
Defined.

Lemma context_is_history_prefix_witness :
  ∃ l st' history,
    conversation duo_config (start [reply "one"; reply "two"]) = (Ok l, st') ∧
    heap st' !! conversation_history l = Some history ∧
    ∀ j q o,
      calls_since (start [reply "one"; reply "two"]) st' !! j = Some (q, o) →
      Request.messages q = take (2 * j + 1) history.
Proof.
  destruct (conversation duo_config (start [reply "one"; reply "two"]))
    as [[l|e] st'] eqn:Hrun; [|by vm_compute in Hrun].
  destruct (context_is_history_prefix _ _ _ _ _ _ duo_config_valid Hrun)
    as (h & Hh & Hpre).
  exists l, st', h. split; [reflexivity|]. split; [exact Hh | exact Hpre].
Defined.

(** * The list objects *)

Section Objects.
Context {World : Type} `{!ModelClient World}.
Implicit Types (st : State World) (l : Locals) (c : Config).

(** A loop keeps what its body keeps, of the variables and of the state. *)
Lemma for_each_keeps {A L} (I : L → Prop) (J : State World → Prop)
    (xs : list A) (body : A → L → M World L) :
  (∀ x v st, I v → J st →
     J (body x v st).2 ∧ ∀ v', (body x v st).1 = Ok v' → I v') →
  ∀ v st, I v → J st →
    J (for_each xs body v st).2 ∧
    ∀ v', (for_each xs body v st).1 = Ok v' → I v'.
Proof.
  intros Hbody. induction xs as [|x xs IH]; intros v st HI HJ.
  - simpl. split; [done|]. intros v' Hv'. by simplify_eq.
  - simpl. unfold mbind, M_bind. destruct (Hbody x v st HI HJ) as [HJ1 HI1].
    destruct (body x v st) as [[v1|e] st1]; simpl in *.
    + apply IH; [by apply HI1 | done].
    + split; [done|]. intros v' Hv'. discriminate.
Qed.

Lemma keeps_alloc old st xs :
  keeps old st →
  keeps old {| world := world st; calls := calls st; heap := heap st ++ [xs] |}.
Proof.
  intros [Hlen Hold]. split; simpl.
  - rewrite length_app. lia.
  - intros o ys Ho. rewrite lookup_app_l; [by apply Hold|].
    apply lookup_lt_Some in Ho. cbn [conversation_history]. lia.
Qed.

(** A turn writes to its own history and to the list it makes for the
    call, and to no list older than its history. *)
Lemma turn_keeps old c a l st :
  (length old ≤ conversation_history l)%nat →
  keeps old st →
  keeps old (turn c a l st).2 ∧
  ∀ l', (turn c a l st).1 = Ok l' →
        conversation_history l' = conversation_history l.
Proof.
  intros Hl Hk.
  unfold turn, request_context, list_add, load, messages_create, advance,
    list_extend, lift, subscript, getitem, mbind, M_bind, mret, M_ret.
  destruct (c !! "model_name") as [m|]; [|done].
  destruct a as [| | | | |d]; try done.
  destruct (d !! "system_prompt") as [sp|]; [|done].
  cbn [world calls heap].
  destruct (create _ (world st)) as [[r|e] w]; cbn [fst snd].
  2:{ split; [|done]. by apply (keeps_alloc old st). }
  destruct (first_text r) as [t|e].
  2:{ split; [|done]. by apply (keeps_alloc old st). }
  destruct (d !! "name") as [nm|].
  2:{ split; [|done]. by apply (keeps_alloc old st). }
  split; [|by intros l' [= <-]]. cbn [heap fst snd].
  destruct (keeps_alloc old st
              ((heap st !!! conversation_history l) ++ [user (current_message l)])
              Hk) as [Hlen Hold].
  cbn [heap] in Hlen, Hold. split; cbn [heap].
  - by rewrite length_insert.
  - intros o xs Ho. rewrite list_lookup_insert_ne; [by apply Hold|].
    apply lookup_lt_Some in Ho. cbn [conversation_history]. lia.
Qed.

Lemma run_conversation_keeps old c st :
  keeps old st → keeps old (_run_conversation c st).2.
Proof.
  intros Hk. unfold _run_conversation. apply bind_preserves; [|done].
  unfold conversation, new_list, lift, mbind, M_bind.
  pose proof (keeps_alloc old st [] Hk) as Hk1.
  destruct (getitem c "num_turns") as [nt|e]; [|done].
  destruct (py_range nt) as [rounds|e]; [|done].
  apply (for_each_keeps (λ l, (length old ≤ conversation_history l)%nat) (keeps old));
    [|by destruct Hk|done].
  intros _ l st1 Hl Hst1. unfold round, lift, mbind, M_bind.
  destruct (getitem c "agents") as [agents|e]; [|done].
  destruct (py_iter agents) as [roster|e]; [|done].
  apply (for_each_keeps (λ l, (length old ≤ conversation_history l)%nat) (keeps old));
    [|done|done].
  intros a l2 st2 Hl2 Hst2.
  destruct (turn_keeps old c a l2 st2 Hl2 Hst2) as [Hk2 Hl'].
  split; [done|]. intros l' Hok. by rewrite (Hl' _ Hok).
Qed.

(** A batch never writes to a list that was there before it: whatever the
    configuration, and whether the batch returns or raises, every list
    object of the state it starts from is found unchanged after it. Each
    conversation extends only the history it has made itself. *)
Theorem existing_lists_are_never_touched c st o xs :
  heap st !! o = Some xs →
  heap (run_samples c st).2 !! o = Some xs.
Proof.
  intros Ho.
  assert (Hk : keeps (heap st) (run_samples c st).2); [|by apply Hk].
  unfold run_samples. apply bind_preserves; [done|].
  intros indices st0 Hk0. apply bind_preserves; [done|].
  intros samples st1 Hk1. apply for_each_preserves; [|done].
  intros _ results st2 Hk2. apply bind_preserves; [|done].
  by apply run_conversation_keeps.
Qed.

(** A count that is no integer: [range] raises [TypeError]. For the
    number of samples that is before anything is done; for the number of
    rounds it is in the first sample, its empty history made and nobody
    called. *)
Theorem counts_of_wrong_type c v e st :
  py_range v = Raise e →
  e = TypeError ∧
  (c !! "num_samples" = Some v → run_samples c st = (Raise TypeError, st)) ∧
  (c !! "num_turns" = Some v →
   _run_conversation c st = (Raise TypeError, first_state st) ∧
   (c !! "num_samples" = None →
    run_samples c st = (Raise TypeError, first_state st))).
Proof.
  intros Hr.
  assert (e = TypeError) as -> by (destruct v; simpl in Hr; congruence).
  split; [done|]. split.
  - intros Hs. unfold run_samples. rewrite Hs. simpl.
    unfold lift, mbind, M_bind. by rewrite Hr.
  - intros Hn.
    assert (Hrun : _run_conversation c st = (Raise TypeError, first_state st)).
    { apply bind_raise.
      unfold conversation, new_list, lift, getitem, mbind, M_bind.
      by rewrite Hn, Hr. }
    split; [done|]. intros Hnone.
    rewrite (run_samples_default _ _ Hnone). by apply bind_raise.
Qed.
End Objects.

Lemma existing_lists_are_never_touched_witness :
  heap (run_samples duo_config
          {| world := []; calls := []; heap := [[user "before"]] |}).2 !! 0
  = Some [user "before"].
Proof.
  apply (existing_lists_are_never_touched duo_config
           {| world := []; calls := []; heap := [[user "before"]] |} 0).
  reflexivity.
Defined.

Lemma counts_of_wrong_type_witness :
  run_samples (<["num_samples" := PStr "3"]> duo_config) (start [])
  = (Raise TypeError, start []).
Proof.
  destruct (counts_of_wrong_type (<["num_samples" := PStr "3"]> duo_config)
              (PStr "3") TypeError (start []) eq_refl) as (_ & Hs & _).
  apply Hs. reflexivity.
Defined.

(** * The progress bar and rosters that are no lists *)

Section Edges.
Context {World : Type} `{!ModelClient World}.
Implicit Types (st : State World) (l : Locals) (c : Config).

Lemma code_points_nonempty s : s ≠ EmptyString → code_points s ≠ [].
Proof.
  destruct s as [|a s]; [done|]. intros _. unfold code_points. simpl.
  destruct (code_points_from s) as [pending found].
  by destruct (is_continuation a).
Qed.

(** A mapping or a string has strings for items, whatever their order. *)
Lemma py_iter_strings agents :
  (∃ d : Config, agents = PDict d ∧ d ≠ ∅) ∨
  (∃ s, agents = PStr s ∧ s ≠ EmptyString) →
  ∃ x rest, py_iter agents = Ok (PStr x :: rest).
Proof.
  intros [(d & -> & Hd) | (s & -> & Hs)]; simpl.
  - destruct (map_to_list d) as [|[k v] kvs] eqn:Hkvs.
    + by apply map_to_list_empty_iff in Hkvs.
    + simpl. eauto.
  - pose proof (code_points_nonempty s Hs) as Hne.
    destruct (code_points s) as [|x xs]; [done|]. simpl. eauto.
Qed.

(** More samples than [sys.maxsize]: the progress bar cannot take the
    length of the range, and the batch raises [OverflowError] before its
    first sample: nothing is made and nobody is called. *)
Theorem too_many_samples c s st :
  default (PInt 1) (c !! "num_samples") = PInt s →
  (maxsize < s)%Z →
  run_samples c st = (Raise OverflowError, st).
Proof.
  intros Hs Hmax. unfold run_samples. rewrite Hs. cbn [py_range].
  unfold lift, mbind at 1 2, M_bind at 1 2.
  rewrite tqdm_overflow; [done|]. rewrite length_indices. lia.
Qed.

(** A roster that is a mapping or a string is gone through by its keys or
    its characters, which are strings and no agents: with a model name and
    a round to play, the first turn raises [TypeError], whichever key or
    character comes first, and nobody is called. *)
Theorem roster_of_strings c z agents st :
  c !! "num_turns" = Some (PInt z) → (0 < z)%Z →
  is_Some (c !! "model_name") →
  c !! "agents" = Some agents →
  (∃ d : Config, agents = PDict d ∧ d ≠ ∅) ∨
  (∃ s, agents = PStr s ∧ s ≠ EmptyString) →
  _run_conversation c st = (Raise TypeError, first_state st).
Proof.
  intros Hn Hz [m Hm] Ha Hitems.
  destruct (py_iter_strings _ Hitems) as (x & rest & Hit).
  apply bind_raise.
  unfold conversation, new_list, lift, getitem, mbind at 1 2 3, M_bind at 1 2 3.
  rewrite Hn. simpl.
  destruct (Z.to_nat z) as [|k] eqn:Hk; [lia|]. simpl.
  unfold round, lift, getitem, mbind, M_bind. rewrite Ha, Hit. simpl.
  unfold turn, lift, getitem, mbind, M_bind. by rewrite Hm.
Qed.
End Edges.

Lemma too_many_samples_witness :
  run_samples (<["num_samples" := PInt 9223372036854775808]> duo_config)
    (start [reply "a"])
  = (Raise OverflowError, start [reply "a"]).
Proof.
  apply (too_many_samples _ 9223372036854775808).
  - reflexivity.
  - unfold maxsize. lia.
Defined.

Lemma roster_of_strings_witness :
  _run_conversation (config_of (PStr "AB")) (start [reply "a"])
  = (Raise TypeError, first_state (start [reply "a"])).
Proof.
  apply (roster_of_strings (config_of (PStr "AB")) 1 (PStr "AB")).
  - reflexivity.
  - lia.
  - eexists. reflexivity.
  - reflexivity.
  - right. exists "AB". split; [reflexivity | discriminate].
Defined.
